(** * The process pool of Pebble: pool manager, registries and worker loop

    A shallow embedding of [pebble/process/pool.py].  The pool process and a
    worker process are separate address spaces, so each gets a state record
    of its own.  Calls into collaborators that live outside this file of the
    repository (the task's [set_results], the submission queue, the channel,
    [stop], process creation) are recorded, in order, in a trace of events. *)

From stdpp Require Import gmap strings list fin_maps functions.

Local Open Scope Z_scope.

(** ** Python values that cross the module *)

(** The triple unpacked by [execute_next_task]:
    [function, args, kwargs = task]. *)
Record payload := Payload {
  function : string;
  args : list Z;
  kwargs : list (string * Z)
}.

(** What a task's [_metadata] attribute can hold: the payload it was created
    with, or an integer (a worker pid).  A payload never compares equal to an
    integer and is never a key of the worker registry. *)
Inductive pyval :=
  | PyPayload (p : payload)
  | PyInt (n : Z).

(** Exception objects.  [errno] exists on [EnvironmentError] only (and may be
    [None] there); the other classes have no such attribute. *)
Inductive exn :=
  | TimeoutError (msg : string)
  | TaskCancelled (msg : string)
  | ProcessExpired (msg : string) (code : option Z)
  | KeyError
  | EOFError
  | EnvironmentError (errno : option Z)
  | AttributeError
  | TypeError.

(** What [set_results] receives: a returned value or an exception object. *)
Inductive results :=
  | Value (v : Z)
  | Error (e : exn).

(** The namedtuples of the channel. *)
Inductive message :=
  | NoMessage
  | NewTask (id : Z) (payload : pyval)
  | Results (task : Z) (r : results)
  | Acknowledgement (worker : Z) (task : Z).

#[global] Instance payload_eq_dec : EqDecision payload.
Proof. solve_decision. Defined.
#[global] Instance pyval_eq_dec : EqDecision pyval.
Proof. solve_decision. Defined.
#[global] Instance exn_eq_dec : EqDecision exn.
Proof. solve_decision. Defined.
#[global] Instance results_eq_dec : EqDecision results.
Proof. solve_decision. Defined.
#[global] Instance message_eq_dec : EqDecision message.
Proof. solve_decision. Defined.

(** [os.EX_OK] *)
Definition EX_OK : Z := 0.

(** ** The pool process *)

(** A task object, with the attributes this module reads or writes.  Times
    are integers (clock ticks); [timeout] is [None] or any number the caller
    passed. *)
Record Task := {
  timeout : option Z;
  cancelled : bool;
  _metadata : pyval;
  _timestamp : Z
}.

(** A worker process handle: [is_alive()] and [exitcode] ([None] until the
    process has exited). *)
Record Worker := {
  is_alive : bool;
  exitcode : option Z
}.

(** Calls that leave this module, in the order they happen.  [StopWorkerCall]
    is a ghost event marking each entry into [WorkerManager.stop_worker]. *)
Inductive event :=
  | SetResults (task : Z) (r : results)   (* task.set_results(results) *)
  | QueueTaskDone                          (* task_queue.task_done() *)
  | ChannelSend (m : message)              (* pool_channel.send(m) *)
  | StopWorkerCall (worker_id : pyval)     (* stop_worker(worker_id) entered *)
  | Stop (pid : Z)                         (* stop(worker) *)
  | Spawn (pid : Z).                       (* worker_process(params, channel) *)

#[global] Instance event_eq_dec : EqDecision event.
Proof. solve_decision. Defined.

(** The state of the pool process.  Task objects live in [heap], addressed by
    their identity; the registries hold references.  A worker is keyed by its
    pid, the only key [new_worker] ever uses for it.  [spawn_pid] and
    [lock_outcomes] are the environment: the pid the operating system gives
    to the n-th process created, and whether the next acquisitions of the
    workers-side channel lock succeed within the bounded wait (an exhausted
    list means they do). *)
Record pool := {
  heap : Z → Task;
  tasks : gmap Z Z;             (* TaskManager.tasks *)
  workers : gmap Z Worker;      (* WorkerManager.workers *)
  workers_number : Z;           (* WorkerManager.workers_number *)
  alive : bool;                 (* context.alive *)
  task_queue : list (option Z); (* context.task_queue; None is the sentinel *)
  spawn_pid : nat → Z;
  spawned : nat;
  lock_outcomes : list bool;
  trace : list event
}.

(** [id(task)]: the identity of an object is its reference. *)
Definition py_id (task : Z) : Z := task.

Definition set_heap (h : Z → Task) (s : pool) : pool :=
  {| heap := h; tasks := tasks s; workers := workers s;
     workers_number := workers_number s; alive := alive s;
     task_queue := task_queue s; spawn_pid := spawn_pid s;
     spawned := spawned s; lock_outcomes := lock_outcomes s;
     trace := trace s |}.

Definition set_tasks (m : gmap Z Z) (s : pool) : pool :=
  {| heap := heap s; tasks := m; workers := workers s;
     workers_number := workers_number s; alive := alive s;
     task_queue := task_queue s; spawn_pid := spawn_pid s;
     spawned := spawned s; lock_outcomes := lock_outcomes s;
     trace := trace s |}.

Definition set_workers (m : gmap Z Worker) (s : pool) : pool :=
  {| heap := heap s; tasks := tasks s; workers := m;
     workers_number := workers_number s; alive := alive s;
     task_queue := task_queue s; spawn_pid := spawn_pid s;
     spawned := spawned s; lock_outcomes := lock_outcomes s;
     trace := trace s |}.

Definition set_task_queue (q : list (option Z)) (s : pool) : pool :=
  {| heap := heap s; tasks := tasks s; workers := workers s;
     workers_number := workers_number s; alive := alive s;
     task_queue := q; spawn_pid := spawn_pid s;
     spawned := spawned s; lock_outcomes := lock_outcomes s;
     trace := trace s |}.

Definition set_spawned (n : nat) (s : pool) : pool :=
  {| heap := heap s; tasks := tasks s; workers := workers s;
     workers_number := workers_number s; alive := alive s;
     task_queue := task_queue s; spawn_pid := spawn_pid s;
     spawned := n; lock_outcomes := lock_outcomes s;
     trace := trace s |}.

Definition set_lock_outcomes (l : list bool) (s : pool) : pool :=
  {| heap := heap s; tasks := tasks s; workers := workers s;
     workers_number := workers_number s; alive := alive s;
     task_queue := task_queue s; spawn_pid := spawn_pid s;
     spawned := spawned s; lock_outcomes := l;
     trace := trace s |}.

(** Append one event to the trace. *)
Definition emit (e : event) (s : pool) : pool :=
  {| heap := heap s; tasks := tasks s; workers := workers s;
     workers_number := workers_number s; alive := alive s;
     task_queue := task_queue s; spawn_pid := spawn_pid s;
     spawned := spawned s; lock_outcomes := lock_outcomes s;
     trace := trace s ++ [e] |}.

(** [tuple(self.tasks.values())]; no property below depends on the order in
    which a dictionary lists its values. *)
Definition tasks_values (s : pool) : list Z := (map_to_list (tasks s)).*2.

(** *** TaskManager *)

(** [self.tasks[id(task)] = task] *)
Definition register (task : Z) (s : pool) : pool :=
  set_tasks (<[py_id task := task]> (tasks s)) s.

(** [task_start]: a missing entry is a [KeyError], which is swallowed.
    [now] is what [time.time()] returns. *)
Definition task_start (now : Z) (task_id worker_id : Z) (s : pool) : pool :=
  match tasks s !! task_id with
  | None => s
  | Some task =>
      let t := heap s task in
      set_heap (<[task := {| timeout := timeout t; cancelled := cancelled t;
                             _metadata := PyInt worker_id;
                             _timestamp := now |}]> (heap s)) s
  end.

(** [task_done]: [self.tasks.pop(task_id)]; on [KeyError] nothing happens,
    otherwise the results are set and the queue callback is called. *)
Definition task_done (task_id : Z) (r : results) (s : pool) : pool :=
  match tasks s !! task_id with
  | None => s
  | Some task =>
      emit QueueTaskDone
        (emit (SetResults task r) (set_tasks (delete task_id (tasks s)) s))
  end.

Section PoolProcess.

(** [Task.started] is a property of the task class, which is defined outside
    this module; it is taken as given. *)
Variable started : Task → bool.

(** The truth value of [task.timeout]: [None] and zero are false. *)
Definition timeout_set (task : Task) : bool :=
  match timeout task with
  | Some seconds => negb (seconds =? 0)
  | None => false
  end.

(** [has_timeout]: [now] is what [time.time()] returns when it is read.  The
    comparison is only reached with a timeout that is a number. *)
Definition has_timeout (now : Z) (task : Task) : bool :=
  if timeout_set task && started task
  then now - _timestamp task >? default 0 (timeout task)
  else false.

(** [inspect_tasks]: [clock task] is the time read while [task] is examined. *)
Definition inspect_tasks (clock : Z → Z) (s : pool) : list Z * list Z :=
  let tasks := tasks_values s in
  (filter (λ t, has_timeout (clock t) (heap s t)) tasks,
   filter (λ t, started (heap s t) && cancelled (heap s t)) tasks).

(** *** WorkerManager *)

(** [self.pool_channel.send(NewTask(id(task), task._metadata))] *)
Definition dispatch (task : Z) (s : pool) : pool :=
  emit (ChannelSend (NewTask (py_id task) (_metadata (heap s task)))) s.

(** [inspect_workers]: the expired workers leave the registry; those with an
    exit code other than [os.EX_OK] are reported as [(pid, exitcode)]. *)
Definition inspect_workers (s : pool) : list (Z * option Z) * pool :=
  let expired :=
    filter (λ w : Z * Worker, negb (is_alive w.2)) (map_to_list (workers s)) in
  let s' := foldl (λ s w, set_workers (delete w.1 (workers s)) s) s expired in
  ((λ w : Z * Worker, (w.1, exitcode w.2)) <$>
     filter (λ w : Z * Worker, exitcode w.2 ≠ Some EX_OK) expired,
   s').

(** [new_worker]: a process is created and registered under its pid. *)
Definition new_worker (s : pool) : pool :=
  let pid := spawn_pid s (spawned s) in
  set_workers (<[pid := {| is_alive := true; exitcode := None |}]> (workers s))
    (emit (Spawn pid) (set_spawned (S (spawned s)) s)).

(** [for _ in range(self.workers_number - len(self.workers))] *)
Definition create_workers (s : pool) : pool :=
  Nat.iter (Z.to_nat (workers_number s - Z.of_nat (size (workers s))))
    new_worker s.

(** [stop_worker]: under the channel lock, pop the worker and stop it.  A
    lock that cannot be acquired ([TimeoutError]) and a worker that is not
    registered ([KeyError]) are both swallowed. *)
Definition stop_worker (worker_id : pyval) (s : pool) : pool :=
  let s := emit (StopWorkerCall worker_id) s in
  let acquired := hd true (lock_outcomes s) in
  let s := set_lock_outcomes (tl (lock_outcomes s)) s in
  if acquired then
    match worker_id with
    | PyInt pid =>
        match workers s !! pid with
        | Some _ => emit (Stop pid) (set_workers (delete pid (workers s)) s)
        | None => s
        end
    | PyPayload _ => s
    end
  else s.

(** [for worker_id in tuple(self.workers.keys())] *)
Definition stop_workers (s : pool) : pool :=
  foldl (λ s pid, stop_worker (PyInt pid) s) s (map_to_list (workers s)).*1.

(** *** PoolManager *)

Definition start (s : pool) : pool := create_workers s.

Definition stop (s : pool) : pool := stop_workers s.

(** The statements of [schedule], in program order. *)
Definition schedule_body (task : Z) : list (pool → pool) :=
  [register task; dispatch task].

(** Run statements one after the other. *)
Definition run (body : list (pool → pool)) (s : pool) : pool :=
  foldl (λ s statement, statement s) s body.

Definition schedule (task : Z) (s : pool) : pool :=
  run (schedule_body task) s.

Definition process_message (now : Z) (m : message) (s : pool) : pool :=
  match m with
  | Acknowledgement worker task => task_start now task worker s
  | Results task r => task_done task r s
  | _ => s
  end.

(** [worker_id_lookup]: the first registered task whose [_metadata] equals
    the worker id, or [None]. *)
Definition worker_id_lookup (worker_id : Z) (s : pool) : option Z :=
  find (λ task, bool_decide (_metadata (heap s task) = PyInt worker_id))
    (tasks_values s).

(** [update_tasks]: the two resolution loops, then the loop that stops the
    workers; the generator reads [t._metadata] as that loop advances. *)
Definition update_tasks (clock : Z → Z) (s : pool) : pool :=
  let '(timeout, cancelled) := inspect_tasks clock s in
  let s := foldl (λ s task,
                    task_done (py_id task) (Error (TimeoutError "Timeout")) s)
             s timeout in
  let s := foldl (λ s task,
                    task_done (py_id task) (Error (TaskCancelled "Cancelled")) s)
             s cancelled in
  foldl (λ s t, stop_worker (_metadata (heap s t)) s) s (timeout ++ cancelled).

(** One turn of the loop of [update_workers]. *)
Definition expire (s : pool) (w : Z * option Z) : pool :=
  let '(worker_id, exitcode) := w in
  match worker_id_lookup worker_id s with
  | Some task =>
      let error := ProcessExpired "Abnormal termination" exitcode in
      task_done (py_id task) (Error error) s
  | None => s
  end.

Definition update_workers (s : pool) : pool :=
  let '(dead, s) := inspect_workers s in
  create_workers (foldl expire s dead).

Definition update_status (clock : Z → Z) (s : pool) : pool :=
  update_workers (update_tasks clock s).

(** *** The task scheduler *)

(** One resumption of the generator [pool_get_next_task]: it yields a task,
    returns, or waits in [task_queue.get()] on an empty queue. *)
Inductive generated :=
  | Yield (task : Z) (s : pool)
  | Return (s : pool)
  | Waiting (s : pool).

Definition pool_get_next_task (s : pool) : generated :=
  if alive s then
    match task_queue s with
    | [] => Waiting s
    | task :: rest =>
        let s := set_task_queue rest s in
        match task with
        | Some t =>
            if negb (cancelled (heap s t)) then Yield t s
            else Return (emit QueueTaskDone s)
        | None => Return (emit QueueTaskDone s)
        end
    end
  else Return s.

Inductive loop_end := Finished | Blocked | OutOfFuel.

(** [for task in pool_get_next_task(pool_manager): pool_manager.schedule(task)] *)
Fixpoint task_scheduler_loop (fuel : nat) (s : pool) : loop_end * pool :=
  match fuel with
  | O => (OutOfFuel, s)
  | S fuel =>
      match pool_get_next_task s with
      | Yield task s => task_scheduler_loop fuel (schedule task s)
      | Return s => (Finished, s)
      | Waiting s => (Blocked, s)
      end
  end.

End PoolProcess.

(** ** A worker process *)

(** What the workers-side channel does at the next transaction attempted by
    this worker: the lock cannot be acquired within the bounded wait, a
    [NewTask] is received, or [recv] raises. *)
Inductive transaction :=
  | Busy
  | Receives (id : Z) (payload : pyval)
  | Fails (e : exn).

(** The state of one worker process: its pid, what the channel still holds in
    store for it, and the messages it has sent, oldest first. *)
Record worker := {
  pid : Z;
  channel : list transaction;
  sent : list message
}.

(** A call returns a value, raises, or never comes back because the channel
    stays silent. *)
Inductive outcome (A : Type) :=
  | Ok (a : A)
  | Raise (e : exn)
  | Wait.
Arguments Ok {A} a.
Arguments Raise {A} e.
Arguments Wait {A}.

(** The parameters of a worker; an initializer is the name of a callable. *)
Record parameters := {
  initializer : option string;
  initargs : list Z;
  deinitializer : option string;
  deinitargs : list Z;
  task_limit : Z
}.

(** Running user code gives back results, or ends the process from inside
    (the payload calls [os._exit]). *)
Inductive executed :=
  | Gives (r : results)
  | Exits (code : Z).

(** How [worker_process] ends. *)
Inductive ending :=
  | OsExit (code : Z)            (* os._exit(code) *)
  | Returns (value : option Z)   (* return value *)
  | Uncaught (e : exn)           (* an exception leaves the function *)
  | InLoop.                      (* waiting on the channel, inside the loop *)

#[global] Instance ending_eq_dec : EqDecision ending.
Proof. solve_decision. Defined.

(** [with channel.lock: task = channel.recv();
     channel.send(Acknowledgement(os.getpid(), task.id))] *)
Definition task_transaction (w : worker) : outcome (Z * pyval) * worker :=
  match channel w with
  | [] => (Wait, w)
  | Busy :: rest =>
      (Raise (TimeoutError "channel is busy"),
       {| pid := pid w; channel := rest; sent := sent w |})
  | Receives id payload :: rest =>
      (Ok (id, payload),
       {| pid := pid w; channel := rest;
          sent := sent w ++ [Acknowledgement (pid w) id] |})
  | Fails e :: rest =>
      (Raise e, {| pid := pid w; channel := rest; sent := sent w |})
  end.

(** The retry loop of [fetch_task]; every retry has used up one entry of the
    channel, so the entries left bound the number of turns. *)
Fixpoint fetch_task_retry (turns : list transaction) (w : worker)
  : outcome (Z * pyval) * worker :=
  match task_transaction w with
  | (Raise (TimeoutError _), w') =>
      match turns with
      | [] => (Wait, w')
      | _ :: turns => fetch_task_retry turns w'
      end
  | r => r
  end.

Definition fetch_task (w : worker) : outcome (Z * pyval) * worker :=
  fetch_task_retry (channel w) w.

(** One resumption of the generator [worker_get_next_task], whose local
    [counter] is how far [count()] has advanced: [Ok None] is the end of the
    generator.  [not task_limit] short-circuits, so the counter only moves
    when the limit is not zero. *)
Definition worker_get_next_task (task_limit counter : Z) (w : worker)
  : outcome (option (Z * pyval)) * Z * worker :=
  if task_limit =? 0 then
    match fetch_task w with
    | (Ok task, w) => (Ok (Some task), counter, w)
    | (Raise e, w) => (Raise e, counter, w)
    | (Wait, w) => (Wait, counter, w)
    end
  else if counter <? task_limit then
    match fetch_task w with
    | (Ok task, w) => (Ok (Some task), counter + 1, w)
    | (Raise e, w) => (Raise e, counter + 1, w)
    | (Wait, w) => (Wait, counter + 1, w)
    end
  else (Ok None, counter + 1, w).

Section WorkerProcess.

(** [pebble.utils.execute] and [pebble.pool.run_initializer] are defined
    outside this module. *)
Variable execute : payload → executed.
Variable run_initializer : string → list Z → bool.

(** [function, args, kwargs = task]: an integer cannot be unpacked. *)
Definition execute_next_task (task : pyval) : outcome executed :=
  match task with
  | PyPayload p => Ok (execute p)
  | PyInt _ => Raise TypeError
  end.

(** How the [for] loop of [worker_process] ends. *)
Inductive loop_result :=
  | Exhausted (w : worker)            (* the generator is exhausted *)
  | Raised (e : exn) (w : worker)
  | Exited (code : Z) (w : worker)
  | Waits (w : worker).

(** The [for] loop: fetch, execute, send the results.  Each turn uses up at
    least one entry of the channel, which bounds [turns]. *)
Fixpoint worker_loop (turns : nat) (task_limit counter : Z) (w : worker)
  : loop_result :=
  match worker_get_next_task task_limit counter w with
  | (Ok None, _, w) => Exhausted w
  | (Raise e, _, w) => Raised e w
  | (Wait, _, w) => Waits w
  | (Ok (Some (id, payload)), counter, w) =>
      match execute_next_task payload with
      | Ok (Gives r) =>
          let w := {| pid := pid w; channel := channel w;
                      sent := sent w ++ [Results id r] |} in
          match turns with
          | O => Waits w
          | S turns => worker_loop turns task_limit counter w
          end
      | Ok (Exits code) => Exited code w
      | Raise e => Raised e w
      | Wait => Waits w
      end
  end.

(** [worker_process]. *)
Definition worker_process (params : parameters) (w : worker)
  : ending * worker :=
  let initialized :=
    match initializer params with
    | Some f => run_initializer f (initargs params)
    | None => true
    end in
  if negb initialized then (OsExit EX_OK, w)
  else
    match worker_loop (length (channel w)) (task_limit params) 0 w with
    | Exhausted w =>
        (* both branches end in os._exit(os.EX_OK) *)
        match deinitializer params with
        | Some f =>
            if negb (run_initializer f (deinitargs params))
            then (OsExit EX_OK, w) else (OsExit EX_OK, w)
        | None => (OsExit EX_OK, w)
        end
    | Raised EOFError w =>
        (* return error.errno: EOFError has no such attribute *)
        (Uncaught AttributeError, w)
    | Raised (EnvironmentError errno) w => (Returns errno, w)
    | Raised e w => (Uncaught e, w)
    | Exited code w => (OsExit code, w)
    | Waits w => (InLoop, w)
    end.

End WorkerProcess.

(** ** The constructor of [Pool] *)

(** Values passed to the constructor. *)
Inductive argument :=
  | ArgNone
  | ArgInt (n : Z)
  | ArgCallable (name : string)
  | ArgTuple (items : list Z).

(** [def __init__(self, workers=1, task_limit=0, queue=None, queueargs=None,
                  initializer=None, initargs=())] *)
Definition Pool_signature : list (string * argument) :=
  [("workers", ArgInt 1); ("task_limit", ArgInt 0); ("queue", ArgNone);
   ("queueargs", ArgNone); ("initializer", ArgNone);
   ("initargs", ArgTuple [])].

(** Binding of keyword arguments: a keyword that is not a parameter of the
    function is a [TypeError]; a parameter without argument gets its
    default. *)
Definition bind (signature : list (string * argument))
    (keywords : list (string * argument)) : exn + list (string * argument) :=
  if forallb (λ k : string * argument,
                bool_decide (k.1 ∈ signature.*1)) keywords
  then inr ((λ p : string * argument,
               (p.1, default p.2 (snd <$> List.find
                        (λ k : string * argument, bool_decide (k.1 = p.1))
                        keywords)))
            <$> signature)
  else inl TypeError.

(** A call of [Pool] with keyword arguments: the bound values are what
    [super(Pool, self).__init__] receives, in its order. *)
Definition Pool_init (keywords : list (string * argument))
  : exn + list argument :=
  match bind Pool_signature keywords with
  | inl e => inl e
  | inr bound => inr bound.*2
  end.

(** ** Invariants and observations *)

(** Every entry of the task registry is keyed by the identity of its task:
    [register] is the only place that adds one. *)
Definition registry_wf (s : pool) : Prop :=
  ∀ k task, tasks s !! k = Some task → k = py_id task.

(** What the three loops of the pool and its owner ask of the pool manager. *)
Inductive operation :=
  | OpStart
  | OpStop
  | OpSchedule (task : Z)
  | OpProcessMessage (now : Z) (m : message)
  | OpUpdateStatus (clock : Z → Z).

Definition perform (started : Task → bool) (s : pool) (op : operation)
  : pool :=
  match op with
  | OpStart => start s
  | OpStop => stop s
  | OpSchedule task => schedule task s
  | OpProcessMessage now m => process_message now m s
  | OpUpdateStatus clock => update_status started clock s
  end.

(** The events added to the trace of [s] on the way to [s']. *)
Definition new_events (s s' : pool) : list event :=
  drop (length (trace s)) (trace s').

(** Is the event a resolution of [task]? *)
Definition is_resolution (task : Z) (e : event) : bool :=
  match e with
  | SetResults t _ => bool_decide (t = task)
  | _ => false
  end.

(** How many times [task] has been resolved in a trace. *)
Definition resolutions (task : Z) (tr : list event) : nat :=
  length (List.filter (is_resolution task) tr).

(** The arguments of the calls of [stop_worker] in a trace, in order. *)
Definition stop_calls (tr : list event) : list pyval :=
  omap (λ e, match e with StopWorkerCall w => Some w | _ => None end) tr.

(** The events of scheduling a list of tasks, one [NewTask] each. *)
Definition new_task_events (s : pool) (l : list Z) : list event :=
  (λ task, ChannelSend (NewTask (py_id task) (_metadata (heap s task)))) <$> l.

(** The events of creating [n] workers, the first of which is the
    [first]-th process ever created. *)
Definition spawn_events (s : pool) (first n : nat) : list event :=
  (λ i, Spawn (spawn_pid s i)) <$> seq first n.

Definition is_acknowledgement (m : message) : bool :=
  match m with Acknowledgement _ _ => true | _ => false end.

Definition is_results (m : message) : bool :=
  match m with Results _ _ => true | _ => false end.

(** How many tasks a worker has acknowledged, and for how many it has sent
    results. *)
Definition acknowledged (w : worker) : nat :=
  length (List.filter is_acknowledgement (sent w)).

Definition answered (w : worker) : nat :=
  length (List.filter is_results (sent w)).

(** The worker state a loop ends in. *)
Definition loop_worker (r : loop_result) : worker :=
  match r with
  | Exhausted w | Raised _ w | Exited _ w | Waits w => w
  end.

(** A channel that delivers the given tasks, one per transaction. *)
Definition delivering (tasks : list (Z * payload)) : list transaction :=
  (λ t, Receives t.1 (PyPayload t.2)) <$> tasks.

(** What a worker sends for one task: the acknowledgement, then the
    results. *)
Definition exchange (pid : Z) (out : payload → results) (t : Z * payload)
  : list message :=
  [Acknowledgement pid t.1; Results t.1 (out t.2)].

(** ** Sample states *)

(** A task as it is submitted, and a pool with two free slots for workers. *)
Definition fresh_task (seconds : option Z) : Task :=
  {| timeout := seconds; cancelled := false;
     _metadata := PyPayload (Payload "add" [1; 1] []); _timestamp := 0 |}.

Definition empty_pool : pool :=
  {| heap := λ _, fresh_task None; tasks := ∅; workers := ∅;
     workers_number := 2; alive := true; task_queue := [];
     spawn_pid := λ n, 100 + Z.of_nat n; spawned := 0;
     lock_outcomes := []; trace := [] |}.

(** A task counts as started once a start timestamp has been recorded. *)
Definition started_by_timestamp (task : Task) : bool := 0 <? _timestamp task.

(** Two tasks tagged with the pids of two dead workers, one of which exited
    with code 123 and the other with [os.EX_OK]; a third worker is alive. *)
Definition crashed_pool : pool :=
  {| heap := λ task, {| timeout := None; cancelled := false;
                        _metadata := PyInt (if task =? 7 then 100 else 101);
                        _timestamp := 5 |};
     tasks := <[7 := 7]> (<[8 := 8]> ∅);
     workers := <[100 := {| is_alive := false; exitcode := Some 123 |}]>
                  (<[101 := {| is_alive := false; exitcode := Some 0 |}]>
                     (<[102 := {| is_alive := true; exitcode := None |}]> ∅));
     workers_number := 3; alive := true; task_queue := [];
     spawn_pid := λ n, 200 + Z.of_nat n; spawned := 3;
     lock_outcomes := []; trace := [] |}.

(** Sample user code and worker parameters: every payload returns 2, every
    initializer succeeds. *)
Definition sample_execute (p : payload) : executed := Gives (Value 2).

Definition sample_run_initializer (f : string) (a : list Z) : bool := true.

Definition sample_parameters (limit : Z) : parameters :=
  {| initializer := None; initargs := []; deinitializer := None;
     deinitargs := []; task_limit := limit |}.

Definition sample_tasks : list (Z * payload) :=
  [(7, Payload "add" [1; 1] []); (8, Payload "add" [2; 2] []);
   (9, Payload "add" [3; 3] [])].

Definition sample_worker (c : list transaction) : worker :=
  {| pid := 100; channel := c; sent := [] |}.

(** ** The message pump and the status monitor *)

(** One resumption of the generator [get_next_message].  [poll] is what the
    pool-side channel has in store: a message that [recv] returns, or nothing
    within the bounded wait, in which case [NoMessage()] is yielded.  [None]
    is the end of the generator. *)
Definition get_next_message (poll : option message) (s : pool)
  : option message :=
  if alive s then
    Some (match poll with Some m => m | None => NoMessage end)
  else None.

(** [for message in get_next_message(pool_manager):
     pool_manager.process_message(message)], over the polls the loop gets to
    make; each comes with the time [task_start] would read. *)
Fixpoint message_manager_loop (polls : list (Z * option message)) (s : pool)
  : pool :=
  match polls with
  | [] => s
  | (now, poll) :: polls =>
      match get_next_message poll s with
      | Some m => message_manager_loop polls (process_message now m s)
      | None => s
      end
  end.

(** [while context.alive: pool_manager.update_status(); time.sleep(SLEEP_UNIT)],
    over the ticks the loop gets to make; each comes with its clock. *)
Fixpoint pool_manager_loop (started : Task → bool) (ticks : list (Z → Z))
    (s : pool) : pool :=
  match ticks with
  | [] => s
  | clock :: ticks =>
      if alive s then pool_manager_loop started ticks (update_status started clock s)
      else s
  end.

(** ** Counting along a run *)

(** 1 if [task] is in the registry under its identity, 0 otherwise. *)
Definition registered (task : Z) (s : pool) : nat :=
  if bool_decide (tasks s !! py_id task = Some task) then 1 else 0.

Definition is_set_results (e : event) : bool :=
  match e with SetResults _ _ => true | _ => false end.

Definition is_queue_task_done (e : event) : bool :=
  match e with QueueTaskDone => true | _ => false end.

Definition is_stop (pid : Z) (e : event) : bool :=
  match e with Stop p => bool_decide (p = pid) | _ => false end.

(** The calls of [set_results], of the queue's [task_done] and of [stop] on
    one worker in a trace. *)
Definition all_resolutions (tr : list event) : nat :=
  length (List.filter is_set_results tr).

Definition callbacks (tr : list event) : nat :=
  length (List.filter is_queue_task_done tr).

Definition stops (pid : Z) (tr : list event) : nat :=
  length (List.filter (is_stop pid) tr).

(** 1 if a worker with this pid is in the worker registry, 0 otherwise. *)
Definition employed (pid : Z) (s : pool) : nat :=
  if bool_decide (is_Some (workers s !! pid)) then 1 else 0.

Definition is_schedule (task : Z) (op : operation) : bool :=
  match op with OpSchedule t => bool_decide (t = task) | _ => false end.

(** How often a run schedules [task]. *)
Definition schedules (task : Z) (ops : list operation) : nat :=
  length (List.filter (is_schedule task) ops).

(** From [s] to [s'] the pool stays as alive as it was, no task has its
    [timeout] or [cancelled] attribute written, the trace only grows, every
    [set_results] comes with one call of the queue's [task_done], and [task]
    is resolved as often as it leaves the registry, where it enters at most
    [n] times. *)
Definition grows (task : Z) (n : nat) (s s' : pool) : Prop :=
  registry_wf s'
  ∧ alive s' = alive s
  ∧ (∀ t, timeout (heap s' t) = timeout (heap s t)
          ∧ cancelled (heap s' t) = cancelled (heap s t))
  ∧ (∃ evs, trace s' = trace s ++ evs)
  ∧ (callbacks (trace s') + all_resolutions (trace s)
     = callbacks (trace s) + all_resolutions (trace s'))%nat
  ∧ (resolutions task (trace s') + registered task s'
     ≤ resolutions task (trace s) + registered task s + n)%nat
  ∧ (resolutions task (trace s) + registered task s
     ≤ resolutions task (trace s') + registered task s')%nat.

(** The pool with the crashed worker, where task 7 has a timeout of one tick
    and was started at time 5. *)
Definition overdue_pool : pool :=
  set_heap (λ task, {| timeout := if task =? 7 then Some 1 else None;
                       cancelled := false;
                       _metadata := PyInt (if task =? 7 then 100 else 101);
                       _timestamp := 5 |})
    crashed_pool.

(** * Properties *)

(** ** The task registry *)

Lemma register_wf task s : registry_wf s → registry_wf (register task s).
Proof.
  intros Hwf k t. unfold register; simpl.
  rewrite lookup_insert. case_decide; [congruence | apply Hwf].
Qed.

Lemma task_done_wf task_id r s : registry_wf s → registry_wf (task_done task_id r s).
Proof.
  intros Hwf k t. unfold task_done.
  destruct (tasks s !! task_id) eqn:E; simpl; [| apply Hwf].
  rewrite lookup_delete. case_decide; [done | apply Hwf].
Qed.


Lemma task_done_absent task_id r s :
  tasks s !! task_id = None → task_done task_id r s = s.
Proof. intros H. unfold task_done. by rewrite H. Qed.

Lemma task_done_present task_id task r s :
  tasks s !! task_id = Some task →
  task_done task_id r s =
    emit QueueTaskDone
      (emit (SetResults task r) (set_tasks (delete task_id (tasks s)) s)).
Proof. intros H. unfold task_done. by rewrite H. Qed.

Lemma resolutions_app task tr tr' :
  resolutions task (tr ++ tr') = (resolutions task tr + resolutions task tr')%nat.
Proof. unfold resolutions. by rewrite List.filter_app, length_app. Qed.

Lemma resolutions_task_done_events task t0 r tr :
  resolutions task ((tr ++ [SetResults t0 r]) ++ [QueueTaskDone])
  = (resolutions task tr + (if bool_decide (t0 = task) then 1 else 0))%nat.
Proof.
  rewrite !resolutions_app. unfold resolutions; simpl.
  destruct (bool_decide (t0 = task)); simpl; lia.
Qed.

(** Over any run of [task_done] calls a task that is not registered gains no
    resolution, and a registered one gains at most one. *)
Lemma resolutions_task_done_calls task (calls : list (Z * results)) s :
  registry_wf s →
  (resolutions task (trace (foldl (λ s c, task_done c.1 c.2 s) s calls))
   ≤ resolutions task (trace s)
     + (if bool_decide (is_Some (tasks s !! py_id task)) then 1 else 0))%nat.
Proof.
  revert s. induction calls as [| [k r] calls IH]; intros s Hwf; simpl.
  - lia.
  - destruct (tasks s !! k) as [t0 |] eqn:Hk.
    + pose proof (Hwf _ _ Hk) as ->.
      specialize (IH (task_done (py_id t0) r s) (task_done_wf _ r _ Hwf)).
      rewrite (task_done_present _ _ _ _ Hk) in IH |- *.
      simpl in IH. rewrite resolutions_task_done_events in IH.
      unfold py_id in *.
      destruct (decide (t0 = task)) as [-> | Hne].
      * rewrite lookup_delete_eq in IH.
        rewrite bool_decide_eq_true_2 in IH by done.
        rewrite (bool_decide_eq_false_2 (is_Some None)) in IH
          by (intros [? ?]; done).
        rewrite bool_decide_eq_true_2 by eauto. lia.
      * rewrite lookup_delete_ne in IH by done.
        rewrite (bool_decide_eq_false_2 (t0 = task)) in IH by done.
        lia.
    + rewrite (task_done_absent _ _ _ Hk). by apply IH.
Qed.

(** C1: on a registered id [task_done] sets the results of the task, calls
    the queue's task-done callback and removes the entry; on an id that is
    not registered, a second call with the same id included, it changes
    nothing; hence no run of [task_done] calls resolves a task twice. *)
Theorem task_done_resolves_once (task_id : Z) (r r' : results) (s : pool) :
  (∀ task, tasks s !! task_id = Some task →
     let s' := task_done task_id r s in
     tasks s' = delete task_id (tasks s)
     ∧ trace s' = trace s ++ [SetResults task r; QueueTaskDone]
     ∧ heap s' = heap s ∧ workers s' = workers s)
  ∧ (tasks s !! task_id = None → task_done task_id r s = s)
  ∧ task_done task_id r' (task_done task_id r s) = task_done task_id r s
  ∧ (registry_wf s → ∀ (calls : list (Z * results)) task,
       (resolutions task (trace (foldl (λ s c, task_done c.1 c.2 s) s calls))
        ≤ resolutions task (trace s) + 1)%nat).
Proof.
  repeat split.
  - rewrite (task_done_present _ _ _ _ H). done.
  - rewrite (task_done_present _ _ _ _ H). simpl. by rewrite <- app_assoc.
  - rewrite (task_done_present _ _ _ _ H). done.
  - rewrite (task_done_present _ _ _ _ H). done.
  - apply task_done_absent.
  - apply task_done_absent. unfold task_done.
    destruct (tasks s !! task_id) eqn:E; simpl; [apply lookup_delete_eq | done].
  - intros Hwf calls task.
    pose proof (resolutions_task_done_calls task calls s Hwf) as Hle.
    case_bool_decide; lia.
Qed.

(** A registered task is resolved by the first of three calls and stays
    resolved once. *)
Lemma task_done_resolves_once_witness :
  let s := register 7 empty_pool in
  trace (task_done 7 (Value 2) s) = [SetResults 7 (Value 2); QueueTaskDone]
  ∧ task_done 8 (Value 2) s = s
  ∧ (resolutions 7%Z
       (trace (foldl (λ s c, task_done c.1 c.2 s) s
                 [(7%Z, Value 2%Z); (7%Z, Error (TimeoutError "Timeout"));
                  (7%Z, Value 3%Z)]))
     ≤ 1)%nat.
Proof.
  pose proof (task_done_resolves_once 7 (Value 2) (Value 2)
                (register 7 empty_pool)) as (H1 & _ & _ & H4).
  pose proof (task_done_resolves_once 8 (Value 2) (Value 2)
                (register 7 empty_pool)) as (_ & H2 & _).
  split; [| split].
  - apply (H1 7). reflexivity.
  - apply H2. reflexivity.
  - apply (H4 (register_wf 7 empty_pool ltac:(intros k t; simpl; rewrite lookup_empty; discriminate))).
Defined.

(** ** Timeouts *)

Lemma elem_of_tasks_values task s :
  task ∈ tasks_values s ↔ ∃ k, tasks s !! k = Some task.
Proof.
  unfold tasks_values. rewrite list_elem_of_fmap. split.
  - intros ([k t] & -> & Hin). exists k. by apply elem_of_map_to_list.
  - intros [k Hk]. exists (k, task). split; [done |].
    by apply elem_of_map_to_list.
Qed.

Lemma has_timeout_spec started now task :
  has_timeout started now task = true
  ↔ started task = true
    ∧ ∃ seconds, timeout task = Some seconds ∧ seconds ≠ 0
                 ∧ seconds < now - _timestamp task.
Proof.
  unfold has_timeout, timeout_set.
  destruct (timeout task) as [seconds |]; simpl.
  - destruct (Z.eqb_spec seconds 0) as [Hz | Hz]; simpl.
    + split; [done | intros (_ & ? & [= <-] & ? & _); done].
    + destruct (started task); simpl.
      * rewrite Z.gtb_ltb, Z.ltb_lt. split.
        -- intros Hlt. split; [done |]. by exists seconds.
        -- by intros (_ & ? & [= <-] & _ & ?).
      * split; [done | intros (? & _); done].
  - split; [done | intros (_ & ? & ? & _); done].
Qed.

Lemma elem_of_inspect_tasks_timeout started clock s task :
  task ∈ (inspect_tasks started clock s).1
  ↔ task ∈ tasks_values s
    ∧ has_timeout started (clock task) (heap s task) = true.
Proof.
  unfold inspect_tasks; simpl.
  rewrite list_elem_of_filter, Is_true_true. tauto.
Qed.

(** C2, as the code has it: a registered task is classified as timed out
    exactly when it is started, its timeout is a number other than zero and
    the time read minus its start timestamp strictly exceeds the timeout; a
    task that is not started is never classified as timed out. *)
Theorem inspect_tasks_timed_out (started : Task → bool) (clock : Z → Z)
    (s : pool) :
  (∀ task, task ∈ (inspect_tasks started clock s).1
     ↔ task ∈ tasks_values s
       ∧ started (heap s task) = true
       ∧ ∃ seconds, timeout (heap s task) = Some seconds ∧ seconds ≠ 0
                    ∧ seconds < clock task - _timestamp (heap s task))
  ∧ (∀ task, started (heap s task) = false →
       task ∉ (inspect_tasks started clock s).1).
Proof.
  assert (Hiff : ∀ task, task ∈ (inspect_tasks started clock s).1
     ↔ task ∈ tasks_values s
       ∧ started (heap s task) = true
       ∧ ∃ seconds, timeout (heap s task) = Some seconds ∧ seconds ≠ 0
                    ∧ seconds < clock task - _timestamp (heap s task)).
  { intros task.
    rewrite elem_of_inspect_tasks_timeout, has_timeout_spec. tauto. }
  split; [exact Hiff |].
  intros task Hns Hin. apply Hiff in Hin as (_ & Hs & _). congruence.
Qed.

(** A registered task that was never acknowledged is not timed out, however
    late the clock. *)
Lemma inspect_tasks_timed_out_witness :
  let s := set_heap (λ _, fresh_task (Some 1)) (register 7 empty_pool) in
  7 ∉ (inspect_tasks started_by_timestamp (λ _, 1000000) s).1.
Proof.
  intros s.
  apply (proj2 (inspect_tasks_timed_out started_by_timestamp (λ _, 1000000) s)).
  reflexivity.
Defined.

(** The claim with "positive timeout" fails: a started task whose timeout is
    negative is classified as timed out at once. *)
Lemma inspect_tasks_positive_timeout_counterexample :
  ¬ (∀ (started : Task → bool) (clock : Z → Z) (s : pool) (task : Z),
       task ∈ tasks_values s →
       (task ∈ (inspect_tasks started clock s).1
        ↔ started (heap s task) = true
          ∧ ∃ seconds, timeout (heap s task) = Some seconds ∧ 0 < seconds
                       ∧ seconds < clock task - _timestamp (heap s task))).
Proof.
  intros H.
  pose (s := set_heap (λ _, {| timeout := Some (-1); cancelled := false;
                               _metadata := PyInt 100; _timestamp := 5 |})
               (register 7 empty_pool)).
  assert (Hreg : 7 ∈ tasks_values s).
  { apply elem_of_tasks_values. by exists 7. }
  destruct (H started_by_timestamp (λ _, 5) s 7 Hreg) as [Hto _].
  assert (Hin : 7 ∈ (inspect_tasks started_by_timestamp (λ _, 5) s).1).
  { apply elem_of_inspect_tasks_timeout. split; [exact Hreg | reflexivity]. }
  apply Hto in Hin as (_ & seconds & [= <-] & Hpos & _). lia.
Qed.

(** ** The scheduler *)

Lemma new_events_app s s' evs :
  trace s' = trace s ++ evs → new_events s s' = evs.
Proof. intros H. unfold new_events. rewrite H. apply drop_app_length. Qed.

Lemma schedule_unfold task s : schedule task s = dispatch task (register task s).
Proof. reflexivity. Qed.

(** A live task at the head of the queue is scheduled and the loop goes on. *)
Lemma task_scheduler_loop_live fuel task rest s :
  alive s = true →
  task_queue s = Some task :: rest →
  cancelled (heap s task) = false →
  task_scheduler_loop (S fuel) s
  = task_scheduler_loop fuel (schedule task (set_task_queue rest s)).
Proof.
  intros Ha Hq Hc. simpl. unfold pool_get_next_task.
  rewrite Ha, Hq. simpl. by rewrite Hc.
Qed.

(** The sentinel or a cancelled task at the head of the queue is
    acknowledged, and the loop ends. *)
Lemma task_scheduler_loop_stop fuel item rest s :
  alive s = true →
  task_queue s = item :: rest →
  (∀ task, item = Some task → cancelled (heap s task) = true) →
  task_scheduler_loop (S fuel) s
  = (Finished, emit QueueTaskDone (set_task_queue rest s)).
Proof.
  intros Ha Hq Hc. simpl. unfold pool_get_next_task.
  rewrite Ha, Hq. simpl. destruct item as [task |]; [| done].
  by rewrite (Hc task eq_refl).
Qed.

Lemma foldl_schedule_fields (l : list Z) s :
  let s' := foldl (λ s task, schedule task s) s l in
  heap s' = heap s ∧ alive s' = alive s ∧ task_queue s' = task_queue s
  ∧ trace s' = trace s ++ new_task_events s l.
Proof.
  revert s. induction l as [| task l IH]; intros s; simpl.
  - by rewrite app_nil_r.
  - destruct (IH (schedule task s)) as (Hh & Ha & Hq & Ht).
    rewrite Hh, Ha, Hq, Ht. repeat split. simpl. by rewrite <- app_assoc.
Qed.

(** C3: the scheduler hands every live task it takes from the queue to
    [schedule], in queue order; at the first item that is the sentinel or a
    cancelled task it calls the queue's [task_done] and ends, without
    scheduling that item and without taking another one. *)
Theorem task_scheduler_loop_items (fuel : nat) (s : pool) (live : list Z)
    (item : option Z) (rest : list (option Z)) :
  alive s = true →
  task_queue s = (Some <$> live) ++ item :: rest →
  (∀ task, task ∈ live → cancelled (heap s task) = false) →
  (∀ task, item = Some task → cancelled (heap s task) = true) →
  (length live < fuel)%nat →
  let s' := (task_scheduler_loop fuel s).2 in
  task_scheduler_loop fuel s
  = (Finished,
     emit QueueTaskDone
       (foldl (λ s task, schedule task s) (set_task_queue rest s) live))
  ∧ trace s' = trace s ++ new_task_events s live ++ [QueueTaskDone]
  ∧ task_queue s' = rest.
Proof.
  intros Ha Hq Hlive Hitem Hfuel.
  assert (Hrun : task_scheduler_loop fuel s
    = (Finished,
       emit QueueTaskDone
         (foldl (λ s task, schedule task s) (set_task_queue rest s) live))).
  { revert fuel s Ha Hq Hlive Hfuel Hitem.
    induction live as [| task live IH]; intros fuel s Ha Hq Hlive Hfuel Hitem;
      (destruct fuel as [| fuel]; [simpl in Hfuel; lia |]).
    - by apply (task_scheduler_loop_stop fuel item rest).
    - rewrite (task_scheduler_loop_live fuel task
                 ((Some <$> live) ++ item :: rest)); try done.
      2: { apply Hlive. left. }
      rewrite IH; try done.
      + intros t Ht. apply Hlive. by right.
      + simpl in Hfuel. lia. }
  rewrite Hrun. simpl. split; [done |].
  destruct (foldl_schedule_fields live (set_task_queue rest s))
    as (_ & _ & Hq' & Ht').
  rewrite Hq', Ht'. simpl. split; [by rewrite <- app_assoc | done].
Qed.

(** Two live tasks, then the sentinel: both are scheduled, the sentinel ends
    the loop and the task behind it stays in the queue. *)
Lemma task_scheduler_loop_items_witness :
  let s := set_task_queue [Some 7; Some 8; None; Some 9] empty_pool in
  trace (task_scheduler_loop 5 s).2
  = [ChannelSend (NewTask 7 (PyPayload (Payload "add" [1; 1] [])));
     ChannelSend (NewTask 8 (PyPayload (Payload "add" [1; 1] [])));
     QueueTaskDone]
  ∧ task_queue (task_scheduler_loop 5 s).2 = [Some 9].
Proof.
  intros s.
  refine (proj2 (task_scheduler_loop_items 5 s [7; 8] None [Some 9]
                   eq_refl eq_refl _ _ _)).
  - intros task _. reflexivity.
  - intros task H. discriminate H.
  - simpl. lia.
Defined.

(** ** Scheduling a task *)

(** C4: [schedule] registers the task under its identity and then writes the
    [NewTask] message: whatever prefix of its statements has run, if the
    message is on the channel the task is in the registry; so an
    [Acknowledgement] or [Results] that answers the message finds the
    entry. *)
Theorem schedule_registers_before_dispatch (task : Z) (s : pool) :
  schedule task s = dispatch task (register task s)
  ∧ (∀ n, let s' := run (take n (schedule_body task)) s in
       ChannelSend (NewTask (py_id task) (_metadata (heap s task)))
         ∈ new_events s s' →
       tasks s' !! py_id task = Some task)
  ∧ tasks (schedule task s) = <[py_id task := task]> (tasks s)
  ∧ new_events s (schedule task s)
    = [ChannelSend (NewTask (py_id task) (_metadata (heap s task)))]
  ∧ (∀ now worker,
       _metadata (heap (process_message now
                          (Acknowledgement worker (py_id task))
                          (schedule task s)) task) = PyInt worker)
  ∧ (∀ now r,
       new_events (schedule task s)
         (process_message now (Results (py_id task) r) (schedule task s))
       = [SetResults task r; QueueTaskDone]).
Proof.
  split; [reflexivity |]. split; [| split; [reflexivity |]].
  - intros [| [| n]]; simpl; unfold new_events; simpl;
      rewrite ?drop_all, ?drop_app_length.
    + by intros ?%elem_of_nil.
    + by intros ?%elem_of_nil.
    + intros _. rewrite take_nil. apply lookup_insert_eq.
  - split; [| split].
    + apply new_events_app. reflexivity.
    + intros now worker. simpl. unfold task_start. simpl.
      rewrite lookup_insert_eq. simpl. by rewrite fn_lookup_insert.
    + intros now r. apply new_events_app. simpl. unfold task_done. simpl.
      rewrite lookup_insert_eq. simpl. by rewrite <- app_assoc.
Qed.

(** After one statement nothing has been sent; after both the task is
    registered. *)
Lemma schedule_registers_before_dispatch_witness :
  tasks (run (take 2 (schedule_body 7)) empty_pool) !! py_id 7 = Some 7.
Proof.
  apply (proj1 (proj2 (schedule_registers_before_dispatch 7 empty_pool)) 2%nat).
  simpl. unfold new_events. simpl. set_solver.
Defined.

(** ** The metadata field *)

Lemma worker_id_lookup_Some worker_id task s :
  worker_id_lookup worker_id s = Some task →
  task ∈ tasks_values s ∧ _metadata (heap s task) = PyInt worker_id.
Proof.
  unfold worker_id_lookup. intros [Hin Htag]%find_some.
  split; [by apply list_elem_of_In | by apply bool_decide_eq_true in Htag].
Qed.

Lemma worker_id_lookup_tagged worker_id task s :
  task ∈ tasks_values s → _metadata (heap s task) = PyInt worker_id →
  ∃ found, worker_id_lookup worker_id s = Some found.
Proof.
  intros Hin Htag. unfold worker_id_lookup.
  destruct (find _ _) as [found |] eqn:Hfind; [by exists found |].
  pose proof (find_none _ _ Hfind task) as Hnone. simpl in Hnone.
  rewrite bool_decide_eq_true_2 in Hnone by done.
  apply list_elem_of_In in Hin. by specialize (Hnone Hin).
Qed.

(** C10: the payload and the worker tag are one field.  [dispatch] sends what
    [_metadata] holds; an [Acknowledgement] for a registered task overwrites
    that field with the worker pid, so a later [dispatch] of the task would
    send the pid, the payload being gone; and the lookup of a task by worker
    pid tests that field. *)
Theorem metadata_payload_then_worker_tag (task worker now : Z) (s : pool) :
  tasks s !! py_id task = Some task →
  let s' := process_message now (Acknowledgement worker (py_id task)) s in
  new_events s (dispatch task s)
  = [ChannelSend (NewTask (py_id task) (_metadata (heap s task)))]
  ∧ _metadata (heap s' task) = PyInt worker
  ∧ (∀ other, other ≠ task → heap s' other = heap s other)
  ∧ new_events s' (dispatch task s')
    = [ChannelSend (NewTask (py_id task) (PyInt worker))]
  ∧ (∃ found, worker_id_lookup worker s' = Some found
              ∧ _metadata (heap s' found) = PyInt worker)
  ∧ (∀ pid found, worker_id_lookup pid s' = Some found →
       found ∈ tasks_values s' ∧ _metadata (heap s' found) = PyInt pid)
  ∧ ((∀ other, other ∈ tasks_values s → other ≠ task →
        _metadata (heap s other) ≠ PyInt worker) →
     worker_id_lookup worker s' = Some task).
Proof.
  intros Hreg s'.
  assert (Hs' : s' = set_heap
            (<[task := {| timeout := timeout (heap s task);
                          cancelled := cancelled (heap s task);
                          _metadata := PyInt worker;
                          _timestamp := now |}]> (heap s)) s).
  { unfold s'; simpl. unfold task_start. by rewrite Hreg. }
  assert (Htag : _metadata (heap s' task) = PyInt worker).
  { rewrite Hs'. simpl. by rewrite fn_lookup_insert. }
  assert (Hother : ∀ other, other ≠ task → heap s' other = heap s other).
  { intros other Hne. rewrite Hs'. simpl. by rewrite fn_lookup_insert_ne. }
  assert (Hin : task ∈ tasks_values s').
  { apply elem_of_tasks_values. exists (py_id task). by rewrite Hs'. }
  destruct (worker_id_lookup_tagged worker task s' Hin Htag) as [found Hfound].
  split; [by apply new_events_app |]. split; [done |]. split; [done |].
  split; [apply new_events_app; simpl; by rewrite Htag |].
  split; [exists found; split; [done |];
          by apply (worker_id_lookup_Some worker found s') |].
  split; [intros pid f; apply worker_id_lookup_Some |].
  intros Huniq. rewrite Hfound. f_equal.
  destruct (worker_id_lookup_Some _ _ _ Hfound) as [Hfin Hftag].
  destruct (decide (found = task)) as [| Hne]; [done |].
  exfalso. apply (Huniq found); [| done |].
  - revert Hfin. rewrite !elem_of_tasks_values. by rewrite Hs'.
  - by rewrite <- (Hother found Hne).
Qed.

(** A scheduled task is acknowledged by worker 100: the pid replaces the
    payload. *)
Lemma metadata_payload_then_worker_tag_witness :
  let s := schedule 7 empty_pool in
  _metadata (heap s 7) = PyPayload (Payload "add" [1; 1] [])
  ∧ _metadata (heap (process_message 50 (Acknowledgement 100 (py_id 7)) s) 7)
    = PyInt 100.
Proof.
  intros s. split; [reflexivity |].
  refine (proj1 (proj2 (metadata_payload_then_worker_tag 7 100 50 s _))).
  reflexivity.
Defined.

(** ** Timed out and cancelled at once *)

Lemma stop_calls_app tr tr' : stop_calls (tr ++ tr') = stop_calls tr ++ stop_calls tr'.
Proof. unfold stop_calls. apply omap_app. Qed.

(** Resolving a list of tasks with the same results: the registry loses
    them, and exactly those that were registered get the results. *)
Lemma foldl_task_done (r : results) (l : list Z) s :
  registry_wf s →
  let s' := foldl (λ s task, task_done (py_id task) r s) s l in
  registry_wf s' ∧ heap s' = heap s ∧ workers s' = workers s
  ∧ lock_outcomes s' = lock_outcomes s
  ∧ (∀ k, tasks s' !! k = if bool_decide (k ∈ l) then None else tasks s !! k)
  ∧ ∃ evs, trace s' = trace s ++ evs
      ∧ stop_calls evs = []
      ∧ (∀ t r', SetResults t r' ∈ evs →
           r' = r ∧ t ∈ l ∧ tasks s !! py_id t = Some t)
      ∧ (∀ t, t ∈ l → tasks s !! py_id t = Some t → SetResults t r ∈ evs).
Proof.
  revert s. induction l as [| task l IH]; intros s Hwf; simpl.
  - split; [done |]. split; [done |]. split; [done |]. split; [done |].
    split; [done |]. exists []. rewrite app_nil_r.
    split; [done |]. split; [done |]. split.
    + by intros ? ? ?%elem_of_nil.
    + by intros ? ?%elem_of_nil.
  - destruct (IH (task_done (py_id task) r s) (task_done_wf _ r _ Hwf))
      as (Hwf' & Hh & Hw & Hl & Ht & evs & Htr & Hsc & Honly & Hall).
    destruct (tasks s !! py_id task) as [t0 |] eqn:Hk.
    + pose proof (Hwf _ _ Hk) as Heq. unfold py_id in Heq. subst t0.
      rewrite (task_done_present _ _ _ _ Hk) in *. simpl in *.
      split; [done |]. split; [done |]. split; [done |]. split; [done |].
      split.
      * intros k. rewrite Ht. unfold py_id.
        destruct (decide (k = task)) as [-> | Hne].
        -- rewrite (bool_decide_eq_true_2 (task ∈ task :: l)) by left.
           by destruct (bool_decide (task ∈ l)); rewrite ?lookup_delete_eq.
        -- rewrite lookup_delete_ne by done.
           destruct (bool_decide_reflect (k ∈ l)) as [Hin | Hnin].
           ++ by rewrite bool_decide_eq_true_2 by (by right).
           ++ rewrite bool_decide_eq_false_2; [done |].
              by intros [? | ?]%elem_of_cons.
      * exists ([SetResults task r; QueueTaskDone] ++ evs).
        split; [rewrite Htr; by rewrite <- !app_assoc |].
        split; [by rewrite stop_calls_app, Hsc |].
        split.
        -- intros t r' [Hhd | Htl]%elem_of_app.
           ++ apply elem_of_cons in Hhd as [Hhd | Hhd].
              ** injection Hhd as -> ->. split; [done |]. split; [left | done].
              ** apply elem_of_cons in Hhd as [Hhd | Hhd]; [done |].
                 by apply elem_of_nil in Hhd.
           ++ destruct (Honly t r' Htl) as (-> & Hin & Hreg).
              split; [done |]. split; [by right |].
              unfold py_id in *.
              destruct (decide (t = task)) as [-> | Hne]; [done |].
              by rewrite lookup_delete_ne in Hreg.
        -- intros t Hin Hreg. apply elem_of_app.
           destruct (decide (t = task)) as [-> | Hne]; [left; left |].
           right. apply Hall.
           ++ by apply elem_of_cons in Hin as [? | ?].
           ++ unfold py_id in *. by rewrite lookup_delete_ne.
    + rewrite (task_done_absent _ _ _ Hk) in *.
      split; [done |]. split; [done |]. split; [done |]. split; [done |].
      split.
      * intros k. rewrite Ht.
        destruct (decide (k = task)) as [-> | Hne].
        -- rewrite (bool_decide_eq_true_2 (task ∈ task :: l)) by left.
           unfold py_id in Hk. by destruct (bool_decide (task ∈ l)).
        -- destruct (bool_decide_reflect (k ∈ l)) as [Hin | Hnin].
           ++ by rewrite bool_decide_eq_true_2 by (by right).
           ++ rewrite bool_decide_eq_false_2; [done |].
              by intros [? | ?]%elem_of_cons.
      * exists evs. split; [done |]. split; [done |]. split.
        -- intros t r' Hev. destruct (Honly t r' Hev) as (-> & Hin & Hreg).
           split; [done |]. split; [by right | done].
        -- intros t Hin Hreg. apply Hall; [| done].
           apply elem_of_cons in Hin as [-> | ?]; [congruence | done].
Qed.

Lemma stop_worker_fields worker_id s :
  let s' := stop_worker worker_id s in
  heap s' = heap s ∧ tasks s' = tasks s
  ∧ ∃ evs, trace s' = trace s ++ evs ∧ stop_calls evs = [worker_id]
      ∧ ∀ t r, SetResults t r ∉ evs.
Proof.
  unfold stop_worker. simpl.
  assert (Hone : ∀ t r, SetResults t r ∉ [StopWorkerCall worker_id]).
  { intros t r [H | H]%elem_of_cons; [done | by apply elem_of_nil in H]. }
  destruct (hd true (lock_outcomes s)); simpl.
  - destruct worker_id as [p | pid]; simpl.
    + repeat (split; [done |]). exists [StopWorkerCall (PyPayload p)]. done.
    + destruct (workers s !! pid); simpl.
      * repeat (split; [done |]).
        exists [StopWorkerCall (PyInt pid); Stop pid].
        split; [by rewrite <- app_assoc |]. split; [done |].
        intros t r [H | H]%elem_of_cons; [done |].
        apply elem_of_cons in H as [H | H]; [done | by apply elem_of_nil in H].
      * repeat (split; [done |]). exists [StopWorkerCall (PyInt pid)]. done.
  - repeat (split; [done |]). exists [StopWorkerCall worker_id]. done.
Qed.

Lemma foldl_stop_worker (l : list Z) s :
  let s' := foldl (λ s t, stop_worker (_metadata (heap s t)) s) s l in
  heap s' = heap s ∧ tasks s' = tasks s
  ∧ ∃ evs, trace s' = trace s ++ evs
      ∧ stop_calls evs = (λ t, _metadata (heap s t)) <$> l
      ∧ ∀ t r, SetResults t r ∉ evs.
Proof.
  revert s. induction l as [| t l IH]; intros s; simpl.
  - repeat (split; [done |]). exists []. rewrite app_nil_r.
    repeat (split; [done |]). by intros ? ? ?%elem_of_nil.
  - destruct (stop_worker_fields (_metadata (heap s t)) s)
      as (Hh & Ht & evs & Htr & Hsc & Hno).
    destruct (IH (stop_worker (_metadata (heap s t)) s))
      as (Hh' & Ht' & evs' & Htr' & Hsc' & Hno').
    split; [congruence |]. split; [congruence |].
    exists (evs ++ evs'). split; [rewrite Htr', Htr; by rewrite app_assoc |].
    split; [rewrite stop_calls_app, Hsc, Hsc', Hh; done |].
    intros t' r [H | H]%elem_of_app; [by apply (Hno t' r) | by apply (Hno' t' r)].
Qed.

Lemma resolutions_elem_of task r evs :
  SetResults task r ∈ evs → (1 ≤ resolutions task evs)%nat.
Proof.
  intros (l1 & l2 & ->)%list_elem_of_split.
  rewrite resolutions_app. unfold resolutions at 2. simpl.
  rewrite bool_decide_eq_true_2 by done. simpl. lia.
Qed.

Lemma resolutions_none task evs :
  (∀ r, SetResults task r ∉ evs) → resolutions task evs = 0%nat.
Proof.
  induction evs as [| e evs IH]; intros Hno; [done |].
  unfold resolutions in *. simpl.
  destruct e as [t r | | | | |]; simpl;
    try (apply IH; intros r' Hin; apply (Hno r'); by right).
  case_bool_decide as Heq.
  - subst t. exfalso. apply (Hno r). left.
  - apply IH. intros r' Hin. apply (Hno r'). by right.
Qed.

(** Under [registry_wf] the registered tasks are pairwise distinct. *)
Lemma NoDup_tasks_values s : registry_wf s → NoDup (tasks_values s).
Proof.
  intros Hwf. unfold tasks_values.
  assert (Heq : (map_to_list (tasks s)).*2 = (map_to_list (tasks s)).*1).
  { apply list_fmap_ext. intros i [k t] Hin.
    apply list_elem_of_lookup_2, elem_of_map_to_list in Hin.
    simpl. symmetry. apply (Hwf _ _ Hin). }
  rewrite Heq. apply NoDup_fst_map_to_list.
Qed.

(** C9: a registered task that is both timed out and cancelled after its
    start when [update_tasks] runs is resolved once, with the timeout error:
    the resolution with the cancellation error finds no entry.  It stands
    once in each of the two lists, and [stop_worker] is called with the
    [_metadata] of every element of the two lists, so twice for this task. *)
Theorem update_tasks_timeout_wins (started : Task → bool) (clock : Z → Z)
    (s : pool) (task : Z) :
  registry_wf s →
  tasks s !! py_id task = Some task →
  has_timeout started (clock task) (heap s task) = true →
  started (heap s task) = true →
  cancelled (heap s task) = true →
  let s' := update_tasks started clock s in
  let evs := new_events s s' in
  let timeout := (inspect_tasks started clock s).1 in
  let cancelled := (inspect_tasks started clock s).2 in
  (∀ r, SetResults task r ∈ evs ↔ r = Error (TimeoutError "Timeout"))
  ∧ resolutions task evs = 1%nat
  ∧ tasks s' !! py_id task = None
  ∧ stop_calls evs = (λ t, _metadata (heap s t)) <$> (timeout ++ cancelled)
  ∧ task ∈ timeout ∧ NoDup timeout
  ∧ task ∈ cancelled ∧ NoDup cancelled.
Proof.
  intros Hwf Hreg Hto Hst Hca s' evs l1 l2.
  assert (Hval : task ∈ tasks_values s).
  { apply elem_of_tasks_values. by exists (py_id task). }
  assert (Hin1 : task ∈ l1).
  { unfold l1, inspect_tasks; simpl. apply list_elem_of_filter.
    split; [by apply Is_true_true | done]. }
  assert (Hin2 : task ∈ l2).
  { unfold l2, inspect_tasks; simpl. apply list_elem_of_filter.
    split; [| done]. apply Is_true_true. by rewrite Hst, Hca. }
  assert (Hnd1 : NoDup l1).
  { by apply list.NoDup_filter, NoDup_tasks_values. }
  assert (Hnd2 : NoDup l2).
  { by apply list.NoDup_filter, NoDup_tasks_values. }
  set (r1 := Error (TimeoutError "Timeout")).
  set (r2 := Error (TaskCancelled "Cancelled")).
  set (s1 := foldl (λ s task, task_done (py_id task) r1 s) s l1).
  set (s2 := foldl (λ s task, task_done (py_id task) r2 s) s1 l2).
  assert (Hs' : s' = foldl (λ s t, stop_worker (_metadata (heap s t)) s) s2
                       (l1 ++ l2)) by reflexivity.
  destruct (foldl_task_done r1 l1 s Hwf)
    as (Hwf1 & Hh1 & _ & _ & Ht1 & evs1 & Htr1 & Hsc1 & Honly1 & Hall1).
  fold s1 in Hwf1, Hh1, Ht1, Htr1.
  destruct (foldl_task_done r2 l2 s1 Hwf1)
    as (_ & Hh2 & _ & _ & Ht2 & evs2 & Htr2 & Hsc2 & Honly2 & _).
  fold s2 in Hh2, Ht2, Htr2.
  destruct (foldl_stop_worker (l1 ++ l2) s2)
    as (_ & Ht3 & evs3 & Htr3 & Hsc3 & Hno3).
  rewrite <- Hs' in Ht3, Htr3.
  assert (Hgone : tasks s1 !! py_id task = None).
  { rewrite Ht1. by rewrite bool_decide_eq_true_2. }
  assert (Hevs : evs = evs1 ++ evs2 ++ evs3).
  { apply new_events_app. rewrite Htr3, Htr2, Htr1. by rewrite <- !app_assoc. }
  assert (Hno2 : ∀ r, SetResults task r ∉ evs2).
  { intros r Hin. destruct (Honly2 _ _ Hin) as (_ & _ & Hreg1). congruence. }
  assert (Hle1 : (resolutions task evs1 ≤ 1)%nat).
  { pose proof (resolutions_task_done_calls task
                  ((λ t, (py_id t, r1)) <$> l1) s Hwf) as Hle.
    rewrite foldl_fmap in Hle. simpl in Hle. fold s1 in Hle.
    rewrite Htr1, resolutions_app in Hle. case_bool_decide; lia. }
  rewrite Hevs.
  split; [| split; [| split; [| split]]].
  - intros r. split.
    + intros [H | [H | H]%elem_of_app]%elem_of_app.
      * by destruct (Honly1 _ _ H) as (-> & _).
      * by destruct (Hno2 r).
      * by destruct (Hno3 task r).
    + intros ->. apply elem_of_app. left. by apply Hall1.
  - rewrite !resolutions_app.
    rewrite (resolutions_none task evs2) by done.
    rewrite (resolutions_none task evs3) by (intros r; apply Hno3).
    pose proof (resolutions_elem_of task r1 evs1 (Hall1 task Hin1 Hreg)). lia.
  - rewrite Ht3, Ht2. by destruct (bool_decide (py_id task ∈ l2)).
  - rewrite !stop_calls_app, Hsc1, Hsc2, Hsc3. simpl.
    by rewrite Hh2, Hh1.
  - done.
Qed.

(** A task that is started, cancelled and past its timeout: one resolution. *)
Lemma update_tasks_timeout_wins_witness :
  let s := set_heap (λ _, {| timeout := Some 1; cancelled := true;
                             _metadata := PyInt 100; _timestamp := 5 |})
             (register 7 empty_pool) in
  resolutions 7
    (new_events s (update_tasks started_by_timestamp (λ _, 10) s)) = 1%nat.
Proof.
  intros s.
  refine (proj1 (proj2 (update_tasks_timeout_wins started_by_timestamp
                          (λ _, 10) s 7 _ eq_refl eq_refl eq_refl eq_refl))).
  apply (register_wf 7 empty_pool).
  intros k t H. simpl in H. rewrite lookup_empty in H. discriminate H.
Defined.

(** ** Expired workers *)

Lemma NoDup_fst_filter {A B} (P : A * B → Prop) `{!∀ x, Decision (P x)}
    (l : list (A * B)) :
  NoDup l.*1 → NoDup (filter P l).*1.
Proof.
  induction l as [| x l IH]; [done |]. simpl.
  intros [Hnin Hnd]%list.NoDup_cons. rewrite filter_cons.
  case_decide; simpl; [| by apply IH].
  apply list.NoDup_cons. split; [| by apply IH].
  intros (y & Hy & Hin)%list_elem_of_fmap. apply Hnin.
  apply list_elem_of_fmap. exists y. split; [done |].
  by apply list_elem_of_filter in Hin as [_ ?].
Qed.

Lemma foldl_pop_workers (l : list (Z * Worker)) s :
  let s' := foldl (λ s w, set_workers (delete w.1 (workers s)) s) s l in
  heap s' = heap s ∧ tasks s' = tasks s ∧ trace s' = trace s
  ∧ spawned s' = spawned s ∧ spawn_pid s' = spawn_pid s
  ∧ workers_number s' = workers_number s
  ∧ ∀ k, workers s' !! k
         = if bool_decide (k ∈ l.*1) then None else workers s !! k.
Proof.
  revert s. induction l as [| [pid w] l IH]; intros s; cbn [foldl].
  - done.
  - destruct (IH (set_workers (delete pid (workers s)) s))
      as (Hh & Ht & Htr & Hsp & Hpid & Hn & Hw).
    repeat (split; [done |]). intros k. rewrite Hw, fmap_cons. simpl.
    destruct (decide (k = pid)) as [-> | Hne].
    + rewrite (bool_decide_eq_true_2 (pid ∈ pid :: l.*1)) by left.
      by destruct (bool_decide (pid ∈ l.*1)); rewrite ?lookup_delete_eq.
    + rewrite lookup_delete_ne by done.
      destruct (bool_decide_reflect (k ∈ l.*1)) as [Hin | Hnin].
      * by rewrite bool_decide_eq_true_2 by (by right).
      * rewrite bool_decide_eq_false_2; [done |].
        by intros [? | ?]%elem_of_cons.
Qed.

(** What [inspect_workers] reports and what it leaves in the registry. *)
Lemma inspect_workers_spec s :
  let dead := (inspect_workers s).1 in
  let s' := (inspect_workers s).2 in
  heap s' = heap s ∧ tasks s' = tasks s ∧ trace s' = trace s
  ∧ spawned s' = spawned s ∧ spawn_pid s' = spawn_pid s
  ∧ workers_number s' = workers_number s
  ∧ workers s' = filter (λ kw, is_alive kw.2 = true) (workers s)
  ∧ NoDup dead.*1
  ∧ ∀ pid code, (pid, code) ∈ dead
      ↔ ∃ w, workers s !! pid = Some w ∧ is_alive w = false
             ∧ exitcode w ≠ Some EX_OK ∧ code = exitcode w.
Proof.
  unfold inspect_workers; simpl.
  set (expired := filter (λ w : Z * Worker, negb (is_alive w.2))
                    (map_to_list (workers s))).
  destruct (foldl_pop_workers expired s) as (Hh & Ht & Htr & Hsp & Hpid & Hn & Hw).
  repeat (split; [done |]).
  assert (Hexp : ∀ pid w, (pid, w) ∈ expired
                   ↔ workers s !! pid = Some w ∧ is_alive w = false).
  { intros pid w. unfold expired.
    rewrite list_elem_of_filter, elem_of_map_to_list. simpl.
    rewrite negb_True, Is_true_false. tauto. }
  split; [| split].
  - apply map_eq. intros k. rewrite Hw.
    destruct (bool_decide_reflect (k ∈ expired.*1)) as [Hin | Hnin].
    + apply list_elem_of_fmap in Hin as ([pid w] & -> & Hin).
      apply Hexp in Hin as [Hk Hdead]. symmetry.
      apply map_lookup_filter_None. right. intros w' Hk' Hal.
      simpl in *. congruence.
    + destruct (workers s !! k) as [w |] eqn:Hk.
      * symmetry. apply map_lookup_filter_Some. split; [done |]. simpl.
        destruct (is_alive w) eqn:Hal; [done |].
        exfalso. apply Hnin. apply list_elem_of_fmap. exists (k, w).
        split; [done |]. by apply Hexp.
      * symmetry. apply map_lookup_filter_None. by left.
  - rewrite <- list_fmap_compose.
    apply (NoDup_fst_filter (λ w : Z * Worker, exitcode w.2 ≠ Some EX_OK)).
    apply NoDup_fst_filter, NoDup_fst_map_to_list.
  - intros pid code. rewrite list_elem_of_fmap. split.
    + intros ([pid' w] & [= -> ->] & Hin).
      apply list_elem_of_filter in Hin as [Hcode Hin]. apply Hexp in Hin.
      exists w. simpl in *. tauto.
    + intros (w & Hk & Hdead & Hcode & ->). exists (pid, w).
      split; [done |]. apply list_elem_of_filter. split; [done |].
      by apply Hexp.
Qed.

(** The loop of [update_workers] over the reported workers. *)
Lemma foldl_expire (dead : list (Z * option Z)) s :
  registry_wf s → NoDup dead.*1 →
  let s' := foldl expire s dead in
  registry_wf s' ∧ heap s' = heap s ∧ workers s' = workers s
  ∧ spawned s' = spawned s ∧ spawn_pid s' = spawn_pid s
  ∧ workers_number s' = workers_number s
  ∧ ∃ evs, trace s' = trace s ++ evs
      ∧ (∀ task r, SetResults task r ∈ evs →
           ∃ pid code, (pid, code) ∈ dead
             ∧ r = Error (ProcessExpired "Abnormal termination" code)
             ∧ tasks s !! py_id task = Some task
             ∧ _metadata (heap s task) = PyInt pid)
      ∧ (∀ pid code task, (pid, code) ∈ dead →
           tasks s !! py_id task = Some task →
           _metadata (heap s task) = PyInt pid →
           ∃ task', tasks s !! py_id task' = Some task'
             ∧ _metadata (heap s task') = PyInt pid
             ∧ SetResults task'
                 (Error (ProcessExpired "Abnormal termination" code)) ∈ evs).
Proof.
  revert s. induction dead as [| [pid code] dead IH]; intros s Hwf Hnd;
    cbn [foldl].
  - repeat (split; [done |]). exists []. rewrite app_nil_r.
    split; [done |]. split.
    + by intros ? ? ?%elem_of_nil.
    + by intros ? ? ? ?%elem_of_nil.
  - rewrite fmap_cons in Hnd. apply list.NoDup_cons in Hnd as [Hnin Hnd].
    simpl in Hnin.
    assert (Hstep : registry_wf (expire s (pid, code))).
    { unfold expire. destruct (worker_id_lookup pid s); [| done].
      by apply task_done_wf. }
    destruct (IH (expire s (pid, code)) Hstep Hnd)
      as (Hwf' & Hh & Hw & Hsp & Hpid & Hn & evs & Htr & Honly & Hall).
    split; [done |].
    destruct (worker_id_lookup pid s) as [found |] eqn:Hfound.
    + destruct (worker_id_lookup_Some _ _ _ Hfound) as [Hfin Hftag].
      apply elem_of_tasks_values in Hfin as [k Hk].
      pose proof (Hwf _ _ Hk) as ->.
      assert (Hex : expire s (pid, code)
                = emit QueueTaskDone
                    (emit (SetResults found
                             (Error (ProcessExpired "Abnormal termination"
                                       code)))
                       (set_tasks (delete (py_id found) (tasks s)) s))).
      { unfold expire. rewrite Hfound. by apply task_done_present. }
      rewrite Hex in *. clear Hex.
      simpl in Hh, Hw, Hsp, Hpid, Hn, Htr, Honly, Hall.
      repeat (split; [done |]).
      exists ([SetResults found
                 (Error (ProcessExpired "Abnormal termination" code));
               QueueTaskDone] ++ evs).
      split; [rewrite Htr; by rewrite <- !app_assoc |]. split.
      * intros task r [Hhd | Htl]%elem_of_app.
        -- apply elem_of_cons in Hhd as [Hhd | Hhd].
           ++ injection Hhd as -> ->. exists pid, code.
              split; [left | done].
           ++ apply elem_of_cons in Hhd as [Hhd | Hhd]; [done |].
              by apply elem_of_nil in Hhd.
        -- destruct (Honly _ _ Htl) as (pid' & code' & Hin & -> & Hreg & Htag).
           exists pid', code'. split; [by right |]. split; [done |].
           split; [| done]. unfold py_id in *.
           destruct (decide (task = found)) as [-> | Hne]; [done |].
           by rewrite lookup_delete_ne in Hreg.
      * intros pid' code' task [Hhd | Htl]%elem_of_cons Hreg Htag.
        -- injection Hhd as -> ->. exists found.
           split; [done |]. split; [done |]. apply elem_of_app. left. left.
        -- assert (Hne : found ≠ task).
           { intros ->. rewrite Hftag in Htag. injection Htag as ->.
             apply Hnin. apply list_elem_of_fmap. by exists (pid', code'). }
           destruct (Hall pid' code' task Htl) as (task' & Hreg' & Htag' & Hev).
           { unfold py_id in *. by rewrite lookup_delete_ne. }
           { done. }
           exists task'. split.
           { unfold py_id in *.
             destruct (decide (found = task')) as [-> | Hne'].
             - by rewrite lookup_delete_eq in Hreg'.
             - by rewrite lookup_delete_ne in Hreg'. }
           split; [done |]. apply elem_of_app. by right.
    + assert (Hex : expire s (pid, code) = s).
      { unfold expire. by rewrite Hfound. }
      rewrite Hex in *. clear Hex.
      repeat (split; [done |]). exists evs. split; [done |]. split.
      * intros task r Hev.
        destruct (Honly _ _ Hev) as (pid' & code' & Hin & -> & Hreg & Htag).
        exists pid', code'. split; [by right | done].
      * intros pid' code' task [Hhd | Htl]%elem_of_cons Hreg Htag.
        -- injection Hhd as -> ->. exfalso.
           assert (Hval : task ∈ tasks_values s).
           { apply elem_of_tasks_values. by exists (py_id task). }
           destruct (worker_id_lookup_tagged pid task s Hval Htag) as [f Hf].
           congruence.
        -- by apply (Hall pid' code' task).
Qed.

Lemma iter_new_worker (n : nat) s :
  let s' := Nat.iter n new_worker s in
  heap s' = heap s ∧ tasks s' = tasks s
  ∧ spawned s' = (spawned s + n)%nat ∧ spawn_pid s' = spawn_pid s
  ∧ workers_number s' = workers_number s
  ∧ trace s' = trace s ++ spawn_events s (spawned s) n
  ∧ ((∀ i, workers s !! spawn_pid s (spawned s + i) = None) →
     (∀ i j, i ≠ j →
        spawn_pid s (spawned s + i) ≠ spawn_pid s (spawned s + j)) →
     size (workers s') = (size (workers s) + n)%nat
     ∧ ∀ j, (n ≤ j)%nat → workers s' !! spawn_pid s (spawned s + j) = None).
Proof.
  induction n as [| n IH]; simpl.
  - split; [done |]. split; [done |]. split; [lia |]. split; [done |].
    split; [done |]. unfold spawn_events. simpl.
    split; [by rewrite app_nil_r |]. intros Hfresh _.
    split; [lia |]. intros j _. apply Hfresh.
  - destruct IH as (Hh & Ht & Hsp & Hpid & Hn & Htr & Hsize).
    split; [done |]. split; [done |]. split; [lia |]. split; [done |].
    split; [done |]. split.
    + rewrite Htr, Hpid, Hsp. unfold spawn_events.
      rewrite seq_S, fmap_app. simpl. by rewrite <- app_assoc.
    + intros Hfresh Hinj. destruct (Hsize Hfresh Hinj) as [Hsz Hnone].
      rewrite Hpid, Hsp. split.
      * rewrite map_size_insert_None by (apply Hnone; lia). lia.
      * intros j Hj. rewrite lookup_insert_ne; [apply Hnone; lia |].
        apply Hinj. lia.
Qed.

(** C5: [update_workers] resolves a task with [ProcessExpired] carrying the
    exit code exactly for the workers that are dead with an exit code other
    than [os.EX_OK] and whose pid is the [_metadata] of a registered task; a
    worker that exited with [os.EX_OK] causes no resolution.  The dead
    workers leave the registry, and as many workers are created as are
    missing from the configured number. *)
Theorem update_workers_expired (s : pool) :
  registry_wf s →
  let s' := update_workers s in
  let evs := new_events s s' in
  let remaining := filter (λ kw, is_alive kw.2 = true) (workers s) in
  (∀ task r, SetResults task r ∈ evs →
     ∃ pid w, workers s !! pid = Some w ∧ is_alive w = false
       ∧ exitcode w ≠ Some EX_OK
       ∧ r = Error (ProcessExpired "Abnormal termination" (exitcode w))
       ∧ tasks s !! py_id task = Some task
       ∧ _metadata (heap s task) = PyInt pid)
  ∧ (∀ pid w task, workers s !! pid = Some w → is_alive w = false →
       exitcode w ≠ Some EX_OK →
       tasks s !! py_id task = Some task →
       _metadata (heap s task) = PyInt pid →
       ∃ task', tasks s !! py_id task' = Some task'
         ∧ _metadata (heap s task') = PyInt pid
         ∧ SetResults task'
             (Error (ProcessExpired "Abnormal termination" (exitcode w)))
           ∈ evs)
  ∧ (∀ pid w task r, workers s !! pid = Some w →
       exitcode w = Some EX_OK →
       _metadata (heap s task) = PyInt pid → SetResults task r ∉ evs)
  ∧ spawned s'
    = (spawned s
       + Z.to_nat (workers_number s - Z.of_nat (size remaining)))%nat
  ∧ ((∀ i, remaining !! spawn_pid s (spawned s + i) = None) →
     (∀ i j, i ≠ j →
        spawn_pid s (spawned s + i) ≠ spawn_pid s (spawned s + j)) →
     Z.of_nat (size (workers s'))
     = Z.max (workers_number s) (Z.of_nat (size remaining))).
Proof.
  intros Hwf s' evs remaining.
  set (dead := (inspect_workers s).1).
  set (s1 := (inspect_workers s).2).
  set (s2 := foldl expire s1 dead).
  set (n := Z.to_nat (workers_number s2 - Z.of_nat (size (workers s2)))).
  assert (Hs' : s' = Nat.iter n new_worker s2) by reflexivity.
  destruct (inspect_workers_spec s)
    as (Hh1 & Ht1 & Htr1 & Hsp1 & Hpid1 & Hn1 & Hw1 & Hnd & Hdead).
  fold dead in Hnd, Hdead.
  fold s1 in Hh1, Ht1, Htr1, Hsp1, Hpid1, Hn1, Hw1.
  fold remaining in Hw1.
  assert (Hwf1 : registry_wf s1).
  { unfold registry_wf. by rewrite Ht1. }
  destruct (foldl_expire dead s1 Hwf1 Hnd)
    as (_ & Hh2 & Hw2 & Hsp2 & Hpid2 & Hn2 & evs2 & Htr2 & Honly & Hall).
  fold s2 in Hh2, Hw2, Hsp2, Hpid2, Hn2, Htr2.
  destruct (iter_new_worker n s2)
    as (_ & _ & Hsp3 & _ & _ & Htr3 & Hsize).
  rewrite <- Hs' in Hsp3, Htr3, Hsize.
  assert (Hevs : evs = evs2 ++ spawn_events s2 (spawned s2) n).
  { apply new_events_app. rewrite Htr3, Htr2, Htr1. by rewrite <- app_assoc. }
  assert (Hres : ∀ task r, SetResults task r ∈ evs ↔ SetResults task r ∈ evs2).
  { intros task r. rewrite Hevs, elem_of_app. split; [| by left].
    intros [H | H]; [done |]. unfold spawn_events in H.
    by apply list_elem_of_fmap in H as (i & Heq & _). }
  assert (Hfirst : ∀ task r, SetResults task r ∈ evs →
     ∃ pid w, workers s !! pid = Some w ∧ is_alive w = false
       ∧ exitcode w ≠ Some EX_OK
       ∧ r = Error (ProcessExpired "Abnormal termination" (exitcode w))
       ∧ tasks s !! py_id task = Some task
       ∧ _metadata (heap s task) = PyInt pid).
  { intros task r Hin%Hres.
    destruct (Honly _ _ Hin) as (pid & code & Hd & -> & Hreg & Htag).
    apply Hdead in Hd as (w & Hk & Hal & Hcode & ->).
    exists pid, w. rewrite <- Ht1, <- Hh1. done. }
  assert (Hn : n = Z.to_nat (workers_number s - Z.of_nat (size remaining))).
  { unfold n. by rewrite Hn2, Hn1, Hw2, Hw1. }
  split; [exact Hfirst |]. split; [| split; [| split]].
  - intros pid w task Hk Hal Hcode Hreg Htag.
    destruct (Hall pid (exitcode w) task) as (task' & Hreg' & Htag' & Hev).
    { apply Hdead. by exists w. }
    { by rewrite Ht1. }
    { by rewrite Hh1. }
    exists task'. rewrite <- Ht1, <- Hh1. split; [done |]. split; [done |].
    by apply Hres.
  - intros pid w task r Hk Hok Htag Hin.
    destruct (Hfirst _ _ Hin) as (pid' & w' & Hk' & _ & Hcode & _ & _ & Htag').
    congruence.
  - rewrite Hsp3, Hsp2, Hsp1. by rewrite Hn.
  - intros Hfresh Hinj.
    destruct Hsize as [Hsz _].
    + intros i. rewrite Hw2, Hw1, Hpid2, Hpid1, Hsp2, Hsp1. apply Hfresh.
    + intros i j Hij. rewrite Hpid2, Hpid1, Hsp2, Hsp1. by apply Hinj.
    + rewrite Hsz, Hw2, Hw1, Hn. lia.
Qed.

Lemma empty_pool_wf : registry_wf empty_pool.
Proof. intros k t H. simpl in H. rewrite lookup_empty in H. discriminate H. Qed.

Lemma crashed_pool_wf : registry_wf crashed_pool.
Proof.
  apply (register_wf 7 (register 8 empty_pool)), (register_wf 8 empty_pool),
    empty_pool_wf.
Qed.

(** The task of the worker that exited with code 123 is resolved with
    [ProcessExpired] carrying 123. *)
Lemma update_workers_expired_witness :
  ∃ task, tasks crashed_pool !! py_id task = Some task
    ∧ _metadata (heap crashed_pool task) = PyInt 100
    ∧ SetResults task
        (Error (ProcessExpired "Abnormal termination" (Some 123)))
      ∈ new_events crashed_pool (update_workers crashed_pool).
Proof.
  refine (proj1 (proj2 (update_workers_expired crashed_pool crashed_pool_wf))
            100 {| is_alive := false; exitcode := Some 123 |} 7
            eq_refl eq_refl _ eq_refl eq_refl).
  discriminate.
Defined.

(** ** The worker's dispatch loop *)

Lemma task_transaction_counts w :
  let r := task_transaction w in
  answered r.2 = answered w
  ∧ (acknowledged r.2
     = acknowledged w + (if r.1 is Ok _ then 1 else 0))%nat
  ∧ (length (channel r.2) + (if r.1 is Wait then 0 else 1)
     ≤ length (channel w))%nat.
Proof.
  unfold task_transaction, answered, acknowledged.
  destruct (channel w) as [| [| id p | e] rest] eqn:Hc; simpl;
    rewrite ?Hc, ?List.filter_app, ?length_app; simpl; lia.
Qed.

Lemma fetch_task_retry_counts turns w :
  let r := fetch_task_retry turns w in
  answered r.2 = answered w
  ∧ (acknowledged r.2
     = acknowledged w + (if r.1 is Ok _ then 1 else 0))%nat
  ∧ (length (channel r.2) + (if r.1 is Ok _ then 1 else 0)
     ≤ length (channel w))%nat.
Proof.
  revert w. induction turns as [| t turns IH]; intros w; simpl;
    destruct (task_transaction_counts w) as (Han & Hack & Hlen);
    destruct (task_transaction w) as [[a | e |] w1]; simpl in *;
    try (repeat split; lia);
    destruct e; simpl; try (repeat split; lia).
  destruct (IH w1) as (Han' & Hack' & Hlen'). repeat split; lia.
Qed.

(** The same for the retries of [fetch_task]. *)
Lemma fetch_task_retry_turns (turns turns' : list transaction) w :
  (length (channel w) ≤ length turns)%nat →
  (length (channel w) ≤ length turns')%nat →
  fetch_task_retry turns w = fetch_task_retry turns' w.
Proof.
  revert turns' w.
  induction turns as [| t turns IH]; intros [| t' turns'] w Hle Hle'; simpl;
    destruct (task_transaction_counts w) as (_ & _ & Hlen);
    destruct (task_transaction w) as [[a | e |] w1]; simpl in *; try done;
    destruct e; try done; try lia.
  apply IH; lia.
Qed.

Lemma fetch_task_counts w :
  let r := fetch_task w in
  answered r.2 = answered w
  ∧ (acknowledged r.2
     = acknowledged w + (if r.1 is Ok _ then 1 else 0))%nat
  ∧ (length (channel r.2) + (if r.1 is Ok _ then 1 else 0)
     ≤ length (channel w))%nat.
Proof. apply fetch_task_retry_counts. Qed.

Lemma fetch_task_receives id p rest w :
  channel w = Receives id p :: rest →
  fetch_task w
  = (Ok (id, p),
     {| pid := pid w; channel := rest;
        sent := sent w ++ [Acknowledgement (pid w) id] |}).
Proof.
  intros Hc. unfold fetch_task. rewrite Hc. simpl.
  unfold task_transaction. by rewrite Hc.
Qed.

Lemma fetch_task_silent w : channel w = [] → fetch_task w = (Wait, w).
Proof.
  intros Hc. unfold fetch_task. rewrite Hc. simpl.
  unfold task_transaction. by rewrite Hc.
Qed.

(** Once [turns] covers what the channel holds, its value does not matter:
    the bound of the loop is never the reason why it stops. *)
Lemma worker_loop_turns execute turns turns' limit c w :
  (length (channel w) ≤ turns)%nat → (length (channel w) ≤ turns')%nat →
  worker_loop execute turns limit c w = worker_loop execute turns' limit c w.
Proof.
  revert turns' c w.
  induction turns as [| turns IH]; intros [| turns'] c w Hle Hle'; simpl;
    try done;
    unfold worker_get_next_task;
    destruct (limit =? 0), (c <? limit); try done;
    destruct (fetch_task_counts w) as (_ & _ & Hlen);
    destruct (fetch_task w) as [[[id p] | e |] w1]; simpl in *; try done;
    destruct (execute_next_task execute p) as [[r | code] | e |]; try done;
    try lia; apply IH; simpl; lia.
Qed.

Lemma answered_results w id r :
  answered {| pid := pid w; channel := channel w;
              sent := sent w ++ [Results id r] |} = S (answered w)
  ∧ acknowledged {| pid := pid w; channel := channel w;
                    sent := sent w ++ [Results id r] |} = acknowledged w.
Proof.
  unfold answered, acknowledged. simpl.
  rewrite !List.filter_app, !length_app. simpl. lia.
Qed.

(** With a limit other than zero, a loop whose counter stands at [c] fetches
    and executes no more than [limit - c] further tasks. *)
Lemma worker_loop_bound (execute : payload → executed) turns limit c w :
  limit ≠ 0 → 0 ≤ c →
  let w' := loop_worker (worker_loop execute turns limit c w) in
  (acknowledged w' ≤ acknowledged w + Z.to_nat (limit - c))%nat
  ∧ (answered w' ≤ answered w + Z.to_nat (limit - c))%nat.
Proof.
  intros Hlimit. revert c w.
  induction turns as [| turns IH]; intros c w Hc; simpl;
    unfold worker_get_next_task;
    (destruct (Z.eqb_spec limit 0) as [| _]; [done |]);
    (destruct (Z.ltb_spec c limit) as [Hlt | Hge]; [| simpl; lia]);
    destruct (fetch_task_counts w) as (Han & Hack & _);
    destruct (fetch_task w) as [[[id p] | e |] w1]; simpl in *;
    try lia;
    (destruct p as [p | n]; simpl; [| lia]);
    (destruct (execute p) as [r | code]; simpl; [| lia]);
    destruct (answered_results w1 id r) as [Han2 Hack2].
  - simpl. lia.
  - specialize (IH (c + 1)
                  {| pid := pid w1; channel := channel w1;
                     sent := sent w1 ++ [Results id r] |}
                  ltac:(lia)).
    simpl in IH. lia.
Qed.

(** A channel that delivers [tasks] and nothing else, to a loop with a limit
    other than zero: the loop takes tasks until the limit is reached or the
    channel is silent, whichever comes first. *)
Lemma worker_loop_delivering (execute : payload → executed)
    (tasks : list (Z * payload)) turns limit c w :
  channel w = delivering tasks →
  (∀ t, t ∈ tasks → ∃ r, execute t.2 = Gives r) →
  (length tasks ≤ turns)%nat →
  limit ≠ 0 → 0 ≤ c →
  let res := worker_loop execute turns limit c w in
  let taken := (Z.to_nat (limit - c) `min` length tasks)%nat in
  acknowledged (loop_worker res) = (acknowledged w + taken)%nat
  ∧ answered (loop_worker res) = (answered w + taken)%nat
  ∧ channel (loop_worker res) = delivering (drop taken tasks)
  ∧ (if decide (limit - c ≤ Z.of_nat (length tasks))
     then res = Exhausted (loop_worker res)
     else res = Waits (loop_worker res)).
Proof.
  intros Hch Hex Hturns Hlimit. revert turns c w Hch Hex Hturns.
  induction tasks as [| [id p] tasks IH]; intros turns c w Hch Hex Hturns Hc.
  - assert (Hrun : worker_loop execute turns limit c w
                   = if c <? limit then Waits w else Exhausted w).
    { destruct turns; simpl; unfold worker_get_next_task;
        (destruct (Z.eqb_spec limit 0) as [| _]; [done |]);
        destruct (c <? limit); try done;
        by rewrite (fetch_task_silent w Hch). }
    rewrite Hrun. simpl.
    rewrite Nat.min_0_r, Nat.add_0_r.
    destruct (Z.ltb_spec c limit); case_decide; try lia; done.
  - destruct turns as [| turns]; [simpl in Hturns; lia |].
    simpl. unfold worker_get_next_task.
    destruct (Z.eqb_spec limit 0) as [| _]; [done |].
    destruct (Z.ltb_spec c limit) as [Hlt | Hge].
    + rewrite (fetch_task_receives id (PyPayload p) (delivering tasks) w Hch).
      simpl. destruct (Hex (id, p)) as [r Hr]; [left |]. simpl in Hr.
      rewrite Hr.
      set (w1 := {| pid := pid w; channel := delivering tasks;
                    sent := (sent w ++ [Acknowledgement (pid w) id])
                            ++ [Results id r] |}).
      destruct (IH turns (c + 1) w1) as (Hack & Han & Hrest & Hend);
        [done | intros t Ht; apply Hex; by right | simpl in Hturns; lia
        | lia |].
      replace (Z.to_nat (limit - c)) with (S (Z.to_nat (limit - (c + 1))))
        by lia.
      simpl. rewrite Hack, Han, Hrest.
      unfold acknowledged, answered, w1. simpl.
      rewrite !List.filter_app, !length_app. simpl.
      split; [lia |]. split; [lia |]. split; [done |].
      repeat case_decide; try done; simpl in *; lia.
    + simpl. replace (Z.to_nat (limit - c)) with 0%nat by lia. simpl.
      rewrite !Nat.add_0_r. repeat split; try done.
      case_decide; [done | lia].
Qed.

(** The same channel with the limit zero: every task is taken, and the loop
    goes on waiting for more. *)
Lemma worker_loop_unbounded (execute : payload → executed)
    (tasks : list (Z * payload)) turns c w :
  channel w = delivering tasks →
  (∀ t, t ∈ tasks → ∃ r, execute t.2 = Gives r) →
  (length tasks ≤ turns)%nat →
  let res := worker_loop execute turns 0 c w in
  acknowledged (loop_worker res) = (acknowledged w + length tasks)%nat
  ∧ answered (loop_worker res) = (answered w + length tasks)%nat
  ∧ channel (loop_worker res) = []
  ∧ res = Waits (loop_worker res).
Proof.
  revert turns c w.
  induction tasks as [| [id p] tasks IH]; intros turns c w Hch Hex Hturns.
  - assert (Hrun : worker_loop execute turns 0 c w = Waits w).
    { destruct turns; simpl; unfold worker_get_next_task; simpl;
        by rewrite (fetch_task_silent w Hch). }
    rewrite Hrun. simpl. rewrite !Nat.add_0_r. done.
  - destruct turns as [| turns]; [simpl in Hturns; lia |].
    simpl. unfold worker_get_next_task. simpl.
    rewrite (fetch_task_receives id (PyPayload p) (delivering tasks) w Hch).
    simpl. destruct (Hex (id, p)) as [r Hr]; [left |]. simpl in Hr.
    rewrite Hr.
    set (w1 := {| pid := pid w; channel := delivering tasks;
                  sent := (sent w ++ [Acknowledgement (pid w) id])
                          ++ [Results id r] |}).
    destruct (IH turns c w1) as (Hack & Han & Hrest & Hend);
      [done | intros t Ht; apply Hex; by right | simpl in Hturns; lia |].
    rewrite Hack, Han, Hrest.
    unfold acknowledged, answered, w1. simpl.
    rewrite !List.filter_app, !length_app. simpl.
    split; [lia |]. split; [lia |]. done.
Qed.

(** Once the initializer has run, the worker ends in the state its loop
    ends in. *)
Lemma worker_process_worker execute run_initializer params w :
  (∀ f, initializer params = Some f →
        run_initializer f (initargs params) = true) →
  (worker_process execute run_initializer params w).2
  = loop_worker (worker_loop execute (length (channel w))
                   (task_limit params) 0 w).
Proof.
  intros Hinit. unfold worker_process.
  destruct (initializer params) as [f |];
    rewrite ?(Hinit _ eq_refl); simpl;
    (destruct (worker_loop _ _ _ _ _) as [w' | e w' | code w' | w']; simpl;
     [destruct (deinitializer params);
        [destruct (negb _) |]; done
     | destruct e; done | done | done]).
Qed.

(** C6: with a task limit K > 0 a worker acknowledges, and executes, at most
    K tasks; given at least K tasks it takes exactly the first K, leaves the
    loop and exits.  With the task limit 0 it takes every task the channel
    delivers, however many, and stays in the loop. *)
Theorem worker_task_limit (execute : payload → executed)
    (run_initializer : string → list Z → bool) (params : parameters)
    (w : worker) :
  let res := worker_process execute run_initializer params w in
  (0 < task_limit params →
     (acknowledged res.2 ≤ acknowledged w + Z.to_nat (task_limit params))%nat
     ∧ (answered res.2 ≤ answered w + Z.to_nat (task_limit params))%nat)
  ∧ (∀ tasks : list (Z * payload),
       channel w = delivering tasks →
       (∀ t, t ∈ tasks → ∃ r, execute t.2 = Gives r) →
       (∀ f, initializer params = Some f →
             run_initializer f (initargs params) = true) →
       (0 < task_limit params ≤ Z.of_nat (length tasks) →
          res.1 = OsExit EX_OK
          ∧ acknowledged res.2
            = (acknowledged w + Z.to_nat (task_limit params))%nat
          ∧ answered res.2 = (answered w + Z.to_nat (task_limit params))%nat
          ∧ channel res.2
            = delivering (drop (Z.to_nat (task_limit params)) tasks))
       ∧ (task_limit params = 0 →
          res.1 = InLoop
          ∧ acknowledged res.2 = (acknowledged w + length tasks)%nat
          ∧ answered res.2 = (answered w + length tasks)%nat
          ∧ channel res.2 = [])).
Proof.
  intros res. split.
  - intros Hpos. unfold res, worker_process.
    destruct (negb _); [simpl; lia |].
    pose proof (worker_loop_bound execute (length (channel w))
                  (task_limit params) 0 w ltac:(lia) ltac:(lia)) as Hb.
    rewrite Z.sub_0_r in Hb.
    destruct (worker_loop _ _ _ _ _) as [w' | e w' | code w' | w']; simpl in *;
      [destruct (deinitializer params); [destruct (negb _) |]; done
      | destruct e; done | done | done].
  - intros tasks Hch Hex Hinit.
    assert (Hlen : length (channel w) = length tasks).
    { rewrite Hch. unfold delivering. by rewrite length_fmap. }
    pose proof (worker_process_worker execute run_initializer params w Hinit)
      as Hw. fold res in Hw.
    assert (Hend : ∀ w', worker_loop execute (length (channel w))
                           (task_limit params) 0 w = Exhausted w' →
                         res.1 = OsExit EX_OK).
    { intros w' Hl. unfold res, worker_process.
      destruct (initializer params) as [f |];
        rewrite ?(Hinit _ eq_refl), Hl; simpl;
        (destruct (deinitializer params); [destruct (negb _) |]; done). }
    assert (Hwait : ∀ w', worker_loop execute (length (channel w))
                            (task_limit params) 0 w = Waits w' →
                          res.1 = InLoop).
    { intros w' Hl. unfold res, worker_process.
      destruct (initializer params) as [f |];
        rewrite ?(Hinit _ eq_refl), Hl; done. }
    split.
    + intros [Hpos Hle].
      destruct (worker_loop_delivering execute tasks (length (channel w))
                  (task_limit params) 0 w Hch Hex ltac:(lia) ltac:(lia)
                  ltac:(lia)) as (Hack & Han & Hrest & Hres).
      rewrite Z.sub_0_r in Hack, Han, Hrest, Hres.
      rewrite Nat.min_l in Hack, Han, Hrest by lia.
      rewrite decide_True in Hres by lia.
      rewrite Hw. split; [by apply (Hend _ Hres) | done].
    + intros Hzero.
      destruct (worker_loop_unbounded execute tasks (length (channel w))
                  0 w Hch Hex ltac:(lia)) as (Hack & Han & Hrest & Hres).
      rewrite Hzero in Hw, Hwait.
      rewrite Hw. split; [by apply (Hwait _ Hres) | done].
Qed.

(** With the limit 2 and three tasks on the channel, the worker takes two
    and exits. *)
Lemma worker_task_limit_witness :
  let res := worker_process sample_execute sample_run_initializer
               (sample_parameters 2) (sample_worker (delivering sample_tasks)) in
  res.1 = OsExit EX_OK ∧ acknowledged res.2 = 2%nat ∧ answered res.2 = 2%nat
  ∧ channel res.2 = delivering [(9, Payload "add" [3; 3] [])].
Proof.
  refine (proj1 (proj2 (worker_task_limit sample_execute sample_run_initializer
                          (sample_parameters 2)
                          (sample_worker (delivering sample_tasks)))
                   sample_tasks eq_refl _ _) _).
  - intros t _. by exists (Value 2).
  - intros f H. discriminate H.
  - simpl. lia.
Defined.

(** ** Channel errors in a worker *)

(** X1: a transaction that raises [EOFError] or [EnvironmentError] takes the
    worker into the handler [return error.errno]: an [EnvironmentError]
    makes the function return its [errno], an [EOFError] has no [errno] and
    the attribute access raises. *)
Lemma worker_process_channel_error execute run_initializer params w rest e :
  (∀ f, initializer params = Some f →
        run_initializer f (initargs params) = true) →
  0 ≤ task_limit params →
  channel w = Fails e :: rest →
  let res := worker_process execute run_initializer params w in
  (e = EOFError → res.1 = Uncaught AttributeError)
  ∧ (∀ errno, e = EnvironmentError errno → res.1 = Returns errno).
Proof.
  intros Hinit Hlimit Hch res.
  assert (Hfetch : e = EOFError ∨ (∃ errno, e = EnvironmentError errno) →
            fetch_task w
            = (Raise e, {| pid := pid w; channel := rest; sent := sent w |})).
  { intros He. unfold fetch_task. rewrite Hch. simpl.
    unfold task_transaction. rewrite Hch.
    destruct He as [-> | [errno ->]]; done. }
  assert (Hloop : e = EOFError ∨ (∃ errno, e = EnvironmentError errno) →
            worker_loop execute (length (channel w)) (task_limit params) 0 w
            = Raised e {| pid := pid w; channel := rest; sent := sent w |}).
  { intros He. rewrite Hch. simpl. unfold worker_get_next_task.
    rewrite (Hfetch He).
    destruct (Z.eqb_spec (task_limit params) 0); [done |].
    destruct (Z.ltb_spec 0 (task_limit params)); [done | lia]. }
  unfold res, worker_process.
  split.
  - intros ->. rewrite Hloop by (by left).
    destruct (initializer params) as [f |]; rewrite ?(Hinit _ eq_refl); done.
  - intros errno ->. rewrite Hloop by (right; by exists errno).
    destruct (initializer params) as [f |]; rewrite ?(Hinit _ eq_refl); done.
Qed.

(** C7, at a channel whose other end is closed: the worker does not end with
    an error code of the [EOFError]; the handler itself raises
    [AttributeError], which leaves the function uncaught. *)
Theorem worker_process_eof_uncaught (execute : payload → executed)
    (run_initializer : string → list Z → bool) :
  (worker_process execute run_initializer (sample_parameters 0)
     (sample_worker [Fails EOFError])).1
  = Uncaught AttributeError.
Proof. reflexivity. Qed.

(** ** The constructor *)

Lemma Pool_init_unknown_keyword (keywords : list (string * argument)) name :
  name ∈ keywords.*1 → name ∉ Pool_signature.*1 →
  Pool_init keywords = inl TypeError.
Proof.
  intros Hin Hnot. unfold Pool_init, bind.
  destruct (forallb _ keywords) eqn:Hall; [| done].
  exfalso. apply list_elem_of_fmap in Hin as (k & -> & Hin).
  rewrite forallb_forall in Hall.
  specialize (Hall k (proj1 (list_elem_of_In _ _) Hin)).
  by apply bool_decide_eq_true in Hall.
Qed.

(** C8, at a call that passes a deinitializer: the constructor takes
    [workers], [task_limit], [queue], [queueargs], [initializer] and
    [initargs], and raises [TypeError] for [deinitializer] and for
    [deinitargs]. *)
Theorem Pool_init_deinitializer_rejected :
  Pool_init [("workers", ArgInt 4); ("task_limit", ArgInt 2);
             ("queue", ArgCallable "Queue"); ("queueargs", ArgTuple [8]);
             ("initializer", ArgCallable "setup"); ("initargs", ArgTuple [1])]
  = inr [ArgInt 4; ArgInt 2; ArgCallable "Queue"; ArgTuple [8];
         ArgCallable "setup"; ArgTuple [1]]
  ∧ Pool_init [("deinitializer", ArgCallable "cleanup")] = inl TypeError
  ∧ Pool_init [("deinitargs", ArgTuple [1])] = inl TypeError.
Proof. repeat split; vm_compute; reflexivity. Qed.

(** ** The registry invariant along a run *)






(** ** What a run of the pool manager conserves *)

Lemma filter_none {A} (f : A → bool) (l : list A) :
  Forall (λ x, f x = false) l → List.filter f l = [].
Proof.
  induction 1 as [| x l Hx _ IH]; [done |]. simpl. by rewrite Hx.
Qed.

Lemma grows_refl task s : registry_wf s → grows task 0 s s.
Proof.
  intros Hwf. unfold grows. repeat split; try done; try lia.
  exists []. by rewrite app_nil_r.
Qed.

Lemma grows_trans task n m s1 s2 s3 :
  grows task n s1 s2 → grows task m s2 s3 → grows task (n + m) s1 s3.
Proof.
  intros (_ & Ha & Hh & [evs Htr] & Hcb & Hup & Hlow)
         (Hwf & Ha' & Hh' & [evs' Htr'] & Hcb' & Hup' & Hlow').
  unfold grows. split; [done |]. split; [congruence |]. split.
  { intros t. destruct (Hh t), (Hh' t). split; congruence. }
  split; [exists (evs ++ evs'); rewrite Htr', Htr; by rewrite app_assoc |].
  repeat split; lia.
Qed.

(** A step that leaves the registry alone and calls neither [set_results]
    nor the queue. *)
Lemma grows_quiet task s s' :
  registry_wf s → tasks s' = tasks s → alive s' = alive s →
  (∀ t, timeout (heap s' t) = timeout (heap s t)
        ∧ cancelled (heap s' t) = cancelled (heap s t)) →
  (∃ evs, trace s' = trace s ++ evs
          ∧ Forall (λ e, is_set_results e = false) evs
          ∧ Forall (λ e, is_queue_task_done e = false) evs) →
  grows task 0 s s'.
Proof.
  intros Hwf Ht Ha Hh (evs & Htr & Hsr & Hqd).
  assert (Hres : resolutions task (trace s') = resolutions task (trace s)).
  { rewrite Htr, resolutions_app. unfold resolutions at 2.
    rewrite filter_none; [simpl; lia |].
    eapply list.Forall_impl; [exact Hsr |]. intros e He.
    destruct e; simpl in *; congruence. }
  assert (Hall : all_resolutions (trace s') = all_resolutions (trace s)).
  { unfold all_resolutions. rewrite Htr, List.filter_app, length_app.
    rewrite (filter_none _ _ Hsr). simpl. lia. }
  assert (Hcb : callbacks (trace s') = callbacks (trace s)).
  { unfold callbacks. rewrite Htr, List.filter_app, length_app.
    rewrite (filter_none _ _ Hqd). simpl. lia. }
  assert (Hreg : registered task s' = registered task s).
  { unfold registered. by rewrite Ht. }
  unfold grows. split; [unfold registry_wf; by rewrite Ht |].
  split; [done |]. split; [done |]. split; [by exists evs |].
  rewrite Hres, Hall, Hcb, Hreg. repeat split; lia.
Qed.

Lemma grows_task_done task k r s :
  registry_wf s → grows task 0 s (task_done k r s).
Proof.
  intros Hwf. destruct (tasks s !! k) as [t0 |] eqn:Hk.
  - pose proof (Hwf _ _ Hk) as ->.
    rewrite (task_done_present _ _ _ _ Hk).
    unfold grows. split.
    { rewrite <- (task_done_present _ _ r _ Hk). by apply task_done_wf. }
    split; [done |]. split; [done |]. split.
    { exists [SetResults t0 r; QueueTaskDone]. simpl.
      by rewrite <- app_assoc. }
    simpl. rewrite resolutions_task_done_events.
    unfold callbacks, all_resolutions, registered. simpl.
    rewrite !List.filter_app, !length_app. simpl.
    unfold py_id in *.
    destruct (decide (t0 = task)) as [-> | Hne].
    + rewrite lookup_delete_eq, Hk.
      rewrite (bool_decide_eq_true_2 (task = task)) by done.
      rewrite (bool_decide_eq_false_2 (None = Some task)) by done.
      rewrite (bool_decide_eq_true_2 (Some task = Some task)) by done.
      repeat split; lia.
    + rewrite lookup_delete_ne by done.
      rewrite (bool_decide_eq_false_2 (t0 = task)) by done.
      repeat split; lia.
  - rewrite (task_done_absent _ _ _ Hk). by apply grows_refl.
Qed.

Lemma grows_register task t s :
  registry_wf s →
  grows task (if bool_decide (t = task) then 1 else 0) s (register t s).
Proof.
  intros Hwf. unfold grows. split; [by apply register_wf |].
  split; [done |]. split; [done |]. split.
  { exists []. simpl. by rewrite app_nil_r. }
  split; [simpl; lia |]. simpl. unfold registered, register, py_id. simpl.
  destruct (decide (t = task)) as [-> | Hne].
  - rewrite lookup_insert_eq.
    rewrite !(bool_decide_eq_true_2 (task = task)) by done.
    rewrite (bool_decide_eq_true_2 (Some task = Some task)) by done.
    case_bool_decide; split; lia.
  - rewrite lookup_insert_ne by done.
    rewrite (bool_decide_eq_false_2 (t = task)) by done. split; lia.
Qed.

Lemma grows_task_start task now task_id worker_id s :
  registry_wf s → grows task 0 s (task_start now task_id worker_id s).
Proof.
  intros Hwf. unfold task_start.
  destruct (tasks s !! task_id) as [t0 |]; [| by apply grows_refl].
  apply grows_quiet; try done.
  - intros t. simpl. destruct (decide (t0 = t)) as [-> | Hne].
    + by rewrite fn_lookup_insert.
    + by rewrite fn_lookup_insert_ne.
  - exists []. simpl. by rewrite app_nil_r.
Qed.

Lemma grows_dispatch task t s : registry_wf s → grows task 0 s (dispatch t s).
Proof.
  intros Hwf. apply grows_quiet; try done.
  eexists. split; [reflexivity |]. split; by repeat constructor.
Qed.

Lemma grows_stop_worker task worker_id s :
  registry_wf s → grows task 0 s (stop_worker worker_id s).
Proof.
  intros Hwf. unfold stop_worker. simpl.
  destruct (hd true (lock_outcomes s)); simpl;
    [destruct worker_id as [p | pid]; simpl;
     [| destruct (workers s !! pid); simpl] |];
    (apply grows_quiet; try done; simpl;
     eexists; split;
     [rewrite <- ?app_assoc; reflexivity | split; by repeat constructor]).
Qed.

Lemma grows_new_worker task s : registry_wf s → grows task 0 s (new_worker s).
Proof.
  intros Hwf. apply grows_quiet; try done.
  eexists. split; [reflexivity |]. split; by repeat constructor.
Qed.

Lemma grows_foldl {A} task (f : pool → A → pool) (l : list A) s :
  (∀ s x, registry_wf s → grows task 0 s (f s x)) →
  registry_wf s → grows task 0 s (foldl f s l).
Proof.
  intros Hstep. revert s. induction l as [| x l IH]; intros s Hwf; simpl.
  - by apply grows_refl.
  - pose proof (Hstep s x Hwf) as Hx.
    apply (grows_trans task 0 0 s (f s x)); [done |].
    apply IH. by destruct Hx.
Qed.

Lemma grows_iter task (f : pool → pool) (n : nat) s :
  (∀ s, registry_wf s → grows task 0 s (f s)) →
  registry_wf s → grows task 0 s (Nat.iter n f s).
Proof.
  intros Hstep Hwf. induction n as [| n IH]; simpl.
  - by apply grows_refl.
  - apply (grows_trans task 0 0 s (Nat.iter n f s)); [done |].
    apply Hstep. by destruct IH.
Qed.

Lemma grows_update_tasks task started clock s :
  registry_wf s → grows task 0 s (update_tasks started clock s).
Proof.
  intros Hwf. unfold update_tasks, inspect_tasks.
  set (l1 := filter _ (tasks_values s)).
  set (l2 := filter _ (tasks_values s)).
  set (s1 := foldl (λ s t, task_done (py_id t)
                             (Error (TimeoutError "Timeout")) s) s l1).
  set (s2 := foldl (λ s t, task_done (py_id t)
                             (Error (TaskCancelled "Cancelled")) s) s1 l2).
  assert (H1 : grows task 0 s s1).
  { apply grows_foldl; [| done]. intros. by apply grows_task_done. }
  assert (H2 : grows task 0 s1 s2).
  { apply grows_foldl; [| by destruct H1]. intros. by apply grows_task_done. }
  apply (grows_trans task 0 0 s s1); [done |].
  apply (grows_trans task 0 0 s1 s2); [done |].
  apply grows_foldl; [| by destruct H2]. intros. by apply grows_stop_worker.
Qed.

Lemma grows_create_workers task s :
  registry_wf s → grows task 0 s (create_workers s).
Proof.
  intros Hwf. apply grows_iter; [| done]. intros. by apply grows_new_worker.
Qed.

Lemma grows_update_workers task s :
  registry_wf s → grows task 0 s (update_workers s).
Proof.
  intros Hwf.
  change (update_workers s)
    with (create_workers (foldl expire (inspect_workers s).2
                            (inspect_workers s).1)).
  assert (H1 : grows task 0 s (inspect_workers s).2).
  { unfold inspect_workers; simpl. apply grows_foldl; [| done].
    intros s0 w Hwf0. apply grows_quiet; try done.
    exists []. simpl. by rewrite app_nil_r. }
  assert (H2 : grows task 0 (inspect_workers s).2
                 (foldl expire (inspect_workers s).2 (inspect_workers s).1)).
  { apply grows_foldl; [| by destruct H1].
    intros s0 [pid code] Hwf0. unfold expire.
    destruct (worker_id_lookup pid s0); [by apply grows_task_done |].
    by apply grows_refl. }
  apply (grows_trans task 0 0 _ _ _ H1).
  apply (grows_trans task 0 0 _ _ _ H2).
  apply grows_create_workers. by destruct H2.
Qed.

Lemma grows_stop_workers task s :
  registry_wf s → grows task 0 s (stop_workers s).
Proof.
  intros Hwf. unfold stop_workers. apply grows_foldl; [| done].
  intros. by apply grows_stop_worker.
Qed.

Lemma grows_perform task started s op :
  registry_wf s →
  grows task (if is_schedule task op then 1 else 0) s (perform started s op).
Proof.
  intros Hwf. destruct op as [| | t | now m | clock]; simpl.
  - by apply grows_create_workers.
  - by apply grows_stop_workers.
  - rewrite schedule_unfold.
    pose proof (grows_register task t s Hwf) as H1.
    replace (if bool_decide (t = task) then 1 else 0)%nat
      with ((if bool_decide (t = task) then 1 else 0) + 0)%nat by lia.
    apply (grows_trans task _ 0 _ _ _ H1).
    apply grows_dispatch. by destruct H1.
  - destruct m; simpl; try by apply grows_refl.
    + by apply grows_task_done.
    + by apply grows_task_start.
  - unfold update_status.
    pose proof (grows_update_tasks task started clock s Hwf) as H1.
    apply (grows_trans task 0 0 _ _ _ H1).
    apply grows_update_workers. by destruct H1.
Qed.

Lemma grows_run task started (ops : list operation) s :
  registry_wf s →
  grows task (schedules task ops) s (foldl (perform started) s ops).
Proof.
  revert s. induction ops as [| op ops IH]; intros s Hwf; simpl.
  - by apply grows_refl.
  - pose proof (grows_perform task started s op Hwf) as H1.
    unfold schedules. simpl.
    destruct (is_schedule task op); simpl;
      [change (S (length (List.filter (is_schedule task) ops)))
         with (1 + schedules task ops)%nat
      | change (length (List.filter (is_schedule task) ops))
         with (0 + schedules task ops)%nat];
      (apply (grows_trans task _ _ _ _ _ H1); apply IH; by destruct H1).
Qed.

Lemma resolutions_pos task evs :
  (1 ≤ resolutions task evs)%nat → ∃ r, SetResults task r ∈ evs.
Proof.
  induction evs as [| e evs IH]; unfold resolutions; simpl; [lia |].
  destruct (is_resolution task e) eqn:He.
  - intros _. destruct e as [t r | | | | |]; try done.
    apply bool_decide_eq_true in He as ->. exists r. left.
  - intros [r Hr]%IH. exists r. by right.
Qed.

(** X3: along any run of pool-manager operations, from any state in which the
    registry is keyed by identity, a task is resolved at most once for each
    time it is scheduled, plus once if it was registered to begin with. *)
Theorem run_resolves_once_per_registration (started : Task → bool)
    (ops : list operation) (s : pool) (task : Z) :
  registry_wf s →
  (resolutions task (new_events s (foldl (perform started) s ops))
   ≤ registered task s + schedules task ops)%nat.
Proof.
  intros Hwf.
  destruct (grows_run task started ops s Hwf)
    as (_ & _ & _ & [evs Htr] & _ & Hup & _).
  rewrite (new_events_app _ _ _ Htr).
  rewrite Htr, resolutions_app in Hup.
  assert (registered task (foldl (perform started) s ops) ≤ 1)%nat
    by (unfold registered; case_bool_decide; lia).
  lia.
Qed.

(** A task scheduled once and answered twice, with two status ticks in
    between, is resolved once. *)
Lemma run_resolves_once_per_registration_witness :
  (resolutions 7
     (new_events empty_pool
        (foldl (perform started_by_timestamp) empty_pool
           [OpStart; OpSchedule 7%Z;
            OpProcessMessage 5%Z (Acknowledgement 100%Z 7%Z);
            OpUpdateStatus (λ _, 6%Z);
            OpProcessMessage 9%Z (Results 7%Z (Value 2%Z));
            OpUpdateStatus (λ _, 10%Z);
            OpProcessMessage 9%Z (Results 7%Z (Value 3%Z))]))
   ≤ 1)%nat.
Proof.
  exact (run_resolves_once_per_registration started_by_timestamp
           [OpStart; OpSchedule 7;
            OpProcessMessage 5 (Acknowledgement 100 7);
            OpUpdateStatus (λ _, 6);
            OpProcessMessage 9 (Results 7 (Value 2));
            OpUpdateStatus (λ _, 10);
            OpProcessMessage 9 (Results 7 (Value 3))]
           empty_pool 7 empty_pool_wf).
Defined.

(** X4: along any run of pool-manager operations a task never leaves the registry
    silently: if it was registered before the run and is not after it, the
    run has set its results. *)
Theorem run_never_drops_task (started : Task → bool) (ops : list operation)
    (s : pool) (task : Z) :
  registry_wf s →
  tasks s !! py_id task = Some task →
  tasks (foldl (perform started) s ops) !! py_id task = None →
  ∃ r, SetResults task r ∈ new_events s (foldl (perform started) s ops).
Proof.
  intros Hwf Hreg Hgone.
  destruct (grows_run task started ops s Hwf)
    as (_ & _ & _ & [evs Htr] & _ & _ & Hlow).
  rewrite (new_events_app _ _ _ Htr).
  rewrite Htr, resolutions_app in Hlow.
  unfold registered in Hlow. rewrite Hreg, Hgone in Hlow.
  rewrite (bool_decide_eq_true_2 (Some task = Some task)) in Hlow by done.
  rewrite (bool_decide_eq_false_2 (None = Some task)) in Hlow by done.
  apply resolutions_pos. lia.
Qed.

(** A started task with a timeout of one tick, registered and then gone after
    a status tick five ticks later: its results were set. *)
Lemma run_never_drops_task_witness :
  let s := set_heap (λ _, {| timeout := Some 1; cancelled := false;
                             _metadata := PyInt 100; _timestamp := 5 |})
             (register 7 empty_pool) in
  ∃ r, SetResults 7 r
       ∈ new_events s (foldl (perform started_by_timestamp) s
                         [OpUpdateStatus (λ _, 10)]).
Proof.
  intros s.
  refine (run_never_drops_task started_by_timestamp
            [OpUpdateStatus (λ _, 10)] s 7 _ eq_refl _).
  - apply (register_wf 7 empty_pool), empty_pool_wf.
  - vm_compute. reflexivity.
Defined.

(** X5: along any run of pool-manager operations the queue's [task_done] is
    called exactly as often as [set_results]: every resolution releases one
    slot of the submission queue, and nothing else does. *)
Theorem run_callbacks_paired (started : Task → bool) (ops : list operation)
    (s : pool) :
  registry_wf s →
  callbacks (new_events s (foldl (perform started) s ops))
  = all_resolutions (new_events s (foldl (perform started) s ops)).
Proof.
  intros Hwf.
  destruct (grows_run 0 started ops s Hwf)
    as (_ & _ & _ & [evs Htr] & Hcb & _).
  rewrite (new_events_app _ _ _ Htr).
  unfold callbacks, all_resolutions in *.
  rewrite Htr, !List.filter_app, !length_app in Hcb. lia.
Qed.

Lemma run_callbacks_paired_witness :
  callbacks (new_events crashed_pool
               (foldl (perform started_by_timestamp) crashed_pool
                  [OpUpdateStatus (λ _, 10)]))
  = all_resolutions (new_events crashed_pool
                       (foldl (perform started_by_timestamp) crashed_pool
                          [OpUpdateStatus (λ _, 10)])).
Proof.
  exact (run_callbacks_paired started_by_timestamp [OpUpdateStatus (λ _, 10)]
           crashed_pool crashed_pool_wf).
Defined.

(** ** The message pump and the status monitor *)

Lemma process_message_alive now m s :
  alive (process_message now m s) = alive s.
Proof.
  destruct m; simpl; try done.
  - unfold task_done. by destruct (tasks s !! task).
  - unfold task_start. by destruct (tasks s !! task).
Qed.

Lemma process_message_no_message now s : process_message now NoMessage s = s.
Proof. reflexivity. Qed.

(** The pump of a pool that is alive, as a run of the pool manager. *)
Lemma message_manager_loop_run started polls s :
  alive s = true →
  message_manager_loop polls s
  = foldl (perform started) s
      ((λ p : Z * option message,
          OpProcessMessage p.1 (default NoMessage p.2)) <$> polls).
Proof.
  revert s. induction polls as [| [now poll] polls IH]; intros s Ha; [done |].
  simpl. unfold get_next_message. rewrite Ha.
  rewrite IH by (by rewrite process_message_alive).
  by destruct poll.
Qed.

(** X6: the message pump, over any sequence of polls: in a pool that is not
    alive it processes nothing; in a pool that is alive it processes the
    received messages in the order of their arrival, the polls that brought
    nothing being without effect; and whatever arrives, duplicates and
    unknown identities included, it resolves a registered task at most once
    and no other task at all. *)
Theorem message_manager_loop_pumps (polls : list (Z * option message))
    (s : pool) :
  (alive s = false → message_manager_loop polls s = s)
  ∧ (alive s = true →
     message_manager_loop polls s
     = foldl (λ s p, process_message p.1 p.2 s) s
         (omap (λ p : Z * option message, (λ m, (p.1, m)) <$> p.2) polls))
  ∧ (registry_wf s → ∀ task,
       (resolutions task (new_events s (message_manager_loop polls s))
        ≤ registered task s)%nat).
Proof.
  split; [| split].
  - intros Ha. destruct polls as [| [now poll] polls]; [done |].
    simpl. unfold get_next_message. by rewrite Ha.
  - revert s. induction polls as [| [now poll] polls IH]; intros s Ha; [done |].
    simpl. unfold get_next_message. rewrite Ha.
    destruct poll as [m |]; simpl.
    + apply IH. by rewrite process_message_alive.
    + by apply IH.
  - intros Hwf task. destruct (alive s) eqn:Ha.
    + rewrite (message_manager_loop_run (λ _, false) polls s Ha).
      set (ops := (λ p : Z * option message,
                     OpProcessMessage p.1 (default NoMessage p.2)) <$> polls).
      destruct (grows_run task (λ _, false) ops s Hwf)
        as (_ & _ & _ & [evs Htr] & _ & Hup & _).
      rewrite (new_events_app _ _ _ Htr).
      rewrite Htr, resolutions_app in Hup.
      assert (Hnone : schedules task ops = 0%nat).
      { unfold schedules, ops. clear. induction polls as [| p polls IH]; done. }
      lia.
    + assert (Hs : message_manager_loop polls s = s).
      { destruct polls as [| [now poll] polls]; [done |].
        simpl. unfold get_next_message. by rewrite Ha. }
      rewrite Hs. unfold new_events. rewrite drop_all.
      unfold resolutions. simpl. lia.
Qed.

(** A result that arrives twice, around a poll that brings nothing, is set
    once. *)
Lemma message_manager_loop_pumps_witness :
  let s := register 7 empty_pool in
  trace (message_manager_loop
           [(5, Some (Results 7 (Value 2))); (6, None);
            (7, Some (Results 7 (Value 3)))] s)
  = [SetResults 7 (Value 2); QueueTaskDone].
Proof.
  intros s.
  rewrite (proj1 (proj2 (message_manager_loop_pumps
             [(5, Some (Results 7 (Value 2))); (6, None);
              (7, Some (Results 7 (Value 3)))] s)) eq_refl).
  reflexivity.
Defined.

Lemma pool_manager_loop_run started ticks s :
  registry_wf s → alive s = true →
  pool_manager_loop started ticks s
  = foldl (perform started) s (OpUpdateStatus <$> ticks).
Proof.
  revert s. induction ticks as [| clock ticks IH]; intros s Hwf Ha; [done |].
  simpl. rewrite Ha.
  destruct (grows_perform 0 started s (OpUpdateStatus clock) Hwf)
    as (Hwf' & Ha' & _).
  simpl in Hwf', Ha'. rewrite IH; [done | done | congruence].
Qed.

(** X7: the status monitor, over any number of ticks with any clocks: in a pool
    that is not alive it does nothing; otherwise it resolves a registered
    task at most once and no other task at all, pairs every resolution with
    a call of the queue's [task_done], and removes no task from the registry
    without resolving it. *)
Theorem pool_manager_loop_ticks (started : Task → bool)
    (ticks : list (Z → Z)) (s : pool) :
  registry_wf s →
  let s' := pool_manager_loop started ticks s in
  (alive s = false → s' = s)
  ∧ (∀ task, (resolutions task (new_events s s') ≤ registered task s)%nat)
  ∧ callbacks (new_events s s') = all_resolutions (new_events s s')
  ∧ (∀ task, tasks s !! py_id task = Some task →
       tasks s' !! py_id task = None →
       ∃ r, SetResults task r ∈ new_events s s').
Proof.
  intros Hwf s'.
  assert (Hdead : alive s = false → s' = s).
  { intros Ha. unfold s'. destruct ticks; simpl; [done | by rewrite Ha]. }
  split; [done |].
  destruct (alive s) eqn:Ha.
  - assert (Hrun : ∀ task, ∃ evs,
              new_events s s' = evs
              ∧ (callbacks evs = all_resolutions evs)
              ∧ (resolutions task evs + registered task s'
                 = registered task s)%nat).
    { intros task. unfold s'.
      rewrite (pool_manager_loop_run started ticks s Hwf Ha).
      destruct (grows_run task started (OpUpdateStatus <$> ticks) s Hwf)
        as (_ & _ & _ & [evs Htr] & Hcb & Hup & Hlow).
      exists evs. split; [by apply new_events_app |].
      rewrite Htr in Hcb, Hup, Hlow.
      unfold callbacks, all_resolutions in *.
      rewrite resolutions_app in Hup, Hlow.
      rewrite !List.filter_app, !length_app in Hcb.
      assert (Hnone : schedules task (OpUpdateStatus <$> ticks) = 0%nat).
      { unfold schedules. clear. induction ticks as [| c ticks IH]; done. }
      split; lia. }
    split; [| split].
    + intros task. destruct (Hrun task) as (evs & -> & _ & Heq). lia.
    + by destruct (Hrun 0) as (evs & -> & Hcb & _).
    + intros task Hreg Hgone. destruct (Hrun task) as (evs & -> & _ & Heq).
      unfold registered in Heq. rewrite Hreg, Hgone in Heq.
      rewrite (bool_decide_eq_true_2 (Some task = Some task)) in Heq by done.
      rewrite (bool_decide_eq_false_2 (None = Some task)) in Heq by done.
      apply resolutions_pos. lia.
  - rewrite (Hdead eq_refl). unfold new_events. rewrite drop_all.
    split; [| split].
    + intros task. unfold resolutions. simpl. lia.
    + done.
    + intros task Hreg Hgone. congruence.
Qed.

(** Two ticks over the pool with a crashed worker set one result for the
    task of that worker. *)
Lemma pool_manager_loop_ticks_witness :
  (resolutions 7
     (new_events crashed_pool
        (pool_manager_loop started_by_timestamp [λ _, 6%Z; λ _, 7%Z]
           crashed_pool))
   ≤ 1)%nat.
Proof.
  exact (proj1 (proj2 (pool_manager_loop_ticks started_by_timestamp
                         [λ _, 6; λ _, 7] crashed_pool crashed_pool_wf)) 7).
Defined.

(** ** What a status tick does to the tasks *)

Lemma filter_all_false {A} (P : A → Prop) `{!∀ x, Decision (P x)}
    (l : list A) :
  (∀ x, x ∈ l → ¬ P x) → filter P l = [].
Proof.
  induction l as [| x l IH]; intros Hnone; [done |].
  rewrite filter_cons. case_decide as HP.
  - destruct (Hnone x); [left | done].
  - apply IH. intros y Hy. apply Hnone. by right.
Qed.

Lemma elem_of_inspect_tasks_cancelled started clock s task :
  task ∈ (inspect_tasks started clock s).2
  ↔ task ∈ tasks_values s
    ∧ started (heap s task) && cancelled (heap s task) = true.
Proof.
  unfold inspect_tasks; simpl.
  rewrite list_elem_of_filter, Is_true_true. tauto.
Qed.

Lemma elem_of_tasks_values_wf task s :
  registry_wf s → task ∈ tasks_values s ↔ tasks s !! py_id task = Some task.
Proof.
  intros Hwf. rewrite elem_of_tasks_values. split.
  - intros [k Hk]. by rewrite <- (Hwf _ _ Hk).
  - intros Hk. by exists (py_id task).
Qed.

(** X8: [update_tasks] settles the registry: it resolves every registered task
    that is timed out with the timeout error, every other registered task
    that is started and cancelled with the cancellation error, and nothing
    else; exactly those tasks leave the registry; and a second call with the
    same clock readings finds nothing to do and changes nothing. *)
Theorem update_tasks_settles (started : Task → bool) (clock : Z → Z)
    (s : pool) :
  registry_wf s →
  let s' := update_tasks started clock s in
  let expired task := has_timeout started (clock task) (heap s task) in
  let aborted task := started (heap s task) && cancelled (heap s task) in
  (∀ task r, SetResults task r ∈ new_events s s'
     ↔ tasks s !! py_id task = Some task
       ∧ (expired task = true ∧ r = Error (TimeoutError "Timeout")
          ∨ expired task = false ∧ aborted task = true
            ∧ r = Error (TaskCancelled "Cancelled")))
  ∧ (∀ task, tasks s' !! py_id task = Some task
     ↔ tasks s !! py_id task = Some task
       ∧ expired task = false ∧ aborted task = false)
  ∧ update_tasks started clock s' = s'.
Proof.
  intros Hwf s' expired aborted.
  set (l1 := (inspect_tasks started clock s).1).
  set (l2 := (inspect_tasks started clock s).2).
  set (r1 := Error (TimeoutError "Timeout")).
  set (r2 := Error (TaskCancelled "Cancelled")).
  set (s1 := foldl (λ s task, task_done (py_id task) r1 s) s l1).
  set (s2 := foldl (λ s task, task_done (py_id task) r2 s) s1 l2).
  assert (Hs' : s' = foldl (λ s t, stop_worker (_metadata (heap s t)) s) s2
                       (l1 ++ l2)) by reflexivity.
  destruct (foldl_task_done r1 l1 s Hwf)
    as (Hwf1 & Hh1 & _ & _ & Ht1 & evs1 & Htr1 & _ & Honly1 & Hall1).
  fold s1 in Hwf1, Hh1, Ht1, Htr1.
  destruct (foldl_task_done r2 l2 s1 Hwf1)
    as (Hwf2 & Hh2 & _ & _ & Ht2 & evs2 & Htr2 & _ & Honly2 & Hall2).
  fold s2 in Hwf2, Hh2, Ht2, Htr2.
  destruct (foldl_stop_worker (l1 ++ l2) s2)
    as (Hh3 & Ht3 & evs3 & Htr3 & _ & Hno3).
  rewrite <- Hs' in Hh3, Ht3, Htr3.
  assert (Hevs : new_events s s' = evs1 ++ evs2 ++ evs3).
  { apply new_events_app. rewrite Htr3, Htr2, Htr1. by rewrite <- !app_assoc. }
  assert (Hl1 : ∀ task, task ∈ l1
                  ↔ tasks s !! py_id task = Some task ∧ expired task = true).
  { intros task. unfold l1.
    by rewrite elem_of_inspect_tasks_timeout, elem_of_tasks_values_wf. }
  assert (Hl2 : ∀ task, task ∈ l2
                  ↔ tasks s !! py_id task = Some task ∧ aborted task = true).
  { intros task. unfold l2.
    by rewrite elem_of_inspect_tasks_cancelled, elem_of_tasks_values_wf. }
  assert (Hreg' : ∀ task, tasks s' !! py_id task = Some task
     ↔ tasks s !! py_id task = Some task
       ∧ expired task = false ∧ aborted task = false).
  { intros task. rewrite Ht3, Ht2, Ht1. unfold py_id in *.
    pose proof (Hl1 task) as E1. pose proof (Hl2 task) as E2.
    destruct (bool_decide_reflect (task ∈ l2)) as [H2 | H2];
      destruct (bool_decide_reflect (task ∈ l1)) as [H1 | H1];
      destruct (expired task), (aborted task); intuition congruence. }
  split; [| split; [exact Hreg' |]].
  - intros task r. rewrite Hevs. split.
    + intros [H | [H | H]%elem_of_app]%elem_of_app.
      * destruct (Honly1 _ _ H) as (-> & Hin & Hreg).
        apply Hl1 in Hin as [_ He]. split; [done |]. by left.
      * destruct (Honly2 _ _ H) as (-> & Hin & Hreg).
        rewrite Ht1 in Hreg.
        destruct (bool_decide_reflect (py_id task ∈ l1)) as [H1 | H1];
          [done |].
        apply Hl2 in Hin as [_ Ha]. split; [done |]. right.
        split; [| done].
        destruct (expired task) eqn:He; [| done].
        destruct H1. by apply Hl1.
      * by destruct (Hno3 task r).
    + intros (Hreg & [[He ->] | (He & Ha & ->)]).
      * apply elem_of_app. left. apply Hall1; [by apply Hl1 | done].
      * apply elem_of_app. right. apply elem_of_app. left.
        apply Hall2; [by apply Hl2 |].
        rewrite Ht1. rewrite bool_decide_eq_false_2; [done |].
        unfold py_id. rewrite Hl1. intros [_ ?]. congruence.
  - assert (Hwf' : registry_wf s').
    { unfold registry_wf. by rewrite Ht3. }
    assert (Hheap : heap s' = heap s) by congruence.
    assert (Hnil : inspect_tasks started clock s' = ([], [])).
    { unfold inspect_tasks. f_equal.
      - apply filter_all_false. intros task Hin Hto.
        apply (elem_of_tasks_values_wf _ _ Hwf'), Hreg' in Hin
          as (_ & He & _).
        apply Is_true_true in Hto. rewrite Hheap in Hto.
        unfold expired in He. congruence.
      - apply filter_all_false. intros task Hin Hab.
        apply (elem_of_tasks_values_wf _ _ Hwf'), Hreg' in Hin
          as (_ & _ & Ha).
        apply Is_true_true in Hab. rewrite Hheap in Hab.
        unfold aborted in Ha. congruence. }
    unfold update_tasks. by rewrite Hnil.
Qed.

(** At time 10 task 7 is overdue and task 8 is not: task 8 stays. *)
Lemma update_tasks_settles_witness :
  tasks (update_tasks started_by_timestamp (λ _, 10) overdue_pool) !! py_id 8
  = Some 8.
Proof.
  apply (proj1 (proj2 (update_tasks_settles started_by_timestamp (λ _, 10)
                         overdue_pool crashed_pool_wf)) 8).
  repeat split; reflexivity.
Defined.

(** ** Stopping workers *)

Lemma stops_app pid tr tr' :
  stops pid (tr ++ tr') = (stops pid tr + stops pid tr')%nat.
Proof. unfold stops. by rewrite List.filter_app, length_app. Qed.

Lemma stop_worker_step v s :
  let s' := stop_worker v s in
  ∃ evs, trace s' = trace s ++ evs
    ∧ (∀ pid, (stops pid evs + employed pid s' = employed pid s)%nat)
    ∧ (∀ pid, v ≠ PyInt pid → workers s' !! pid = workers s !! pid)
    ∧ (lock_outcomes s = [] →
       lock_outcomes s' = [] ∧ ∀ pid, v = PyInt pid → workers s' !! pid = None)
    ∧ (∀ rest, lock_outcomes s = false :: rest →
       workers s' = workers s ∧ lock_outcomes s' = rest
       ∧ ∀ pid, stops pid evs = 0%nat).
Proof.
  unfold stop_worker. simpl.
  destruct (lock_outcomes s) as [| [|] rest] eqn:Hlock; simpl.
  - (* the lock is free *)
    destruct v as [p | pid0]; simpl.
    + exists [StopWorkerCall (PyPayload p)].
      split; [done |]. split; [intros pid; unfold stops, employed; simpl; lia |].
      split; [done |]. split; [| done]. split; [done |]. by intros pid [=].
    + destruct (workers s !! pid0) as [w |] eqn:Hw; simpl.
      * exists [StopWorkerCall (PyInt pid0); Stop pid0].
        split; [by rewrite <- app_assoc |]. split.
        { intros pid. unfold stops, employed. simpl.
          destruct (decide (pid0 = pid)) as [-> | Hne].
          - rewrite lookup_delete_eq, Hw.
            rewrite (bool_decide_eq_true_2 (pid = pid)) by done.
            rewrite (bool_decide_eq_false_2 (is_Some None))
              by (intros [? ?]; done).
            rewrite (bool_decide_eq_true_2 (is_Some (Some w))) by eauto.
            simpl. lia.
          - rewrite lookup_delete_ne by done.
            rewrite (bool_decide_eq_false_2 (pid0 = pid)) by done.
            simpl. lia. }
        split.
        { intros pid Hne. rewrite lookup_delete_ne; [done | congruence]. }
        split; [| done]. split; [done |].
        intros pid [= ->]. apply lookup_delete_eq.
      * exists [StopWorkerCall (PyInt pid0)].
        split; [done |]. split; [intros pid; unfold stops, employed; simpl; lia |].
        split; [done |]. split; [| done]. split; [done |].
        by intros pid [= ->].
  - (* acquired at this attempt *)
    destruct v as [p | pid0]; simpl.
    + exists [StopWorkerCall (PyPayload p)].
      split; [done |]. split; [intros pid; unfold stops, employed; simpl; lia |].
      split; [done |]. done.
    + destruct (workers s !! pid0) as [w |] eqn:Hw; simpl.
      * exists [StopWorkerCall (PyInt pid0); Stop pid0].
        split; [by rewrite <- app_assoc |]. split.
        { intros pid. unfold stops, employed. simpl.
          destruct (decide (pid0 = pid)) as [-> | Hne].
          - rewrite lookup_delete_eq, Hw.
            rewrite (bool_decide_eq_true_2 (pid = pid)) by done.
            rewrite (bool_decide_eq_false_2 (is_Some None))
              by (intros [? ?]; done).
            rewrite (bool_decide_eq_true_2 (is_Some (Some w))) by eauto.
            simpl. lia.
          - rewrite lookup_delete_ne by done.
            rewrite (bool_decide_eq_false_2 (pid0 = pid)) by done.
            simpl. lia. }
        split.
        { intros pid Hne. rewrite lookup_delete_ne; [done | congruence]. }
        done.
      * exists [StopWorkerCall (PyInt pid0)].
        split; [done |]. split; [intros pid; unfold stops, employed; simpl; lia |].
        split; [done |]. done.
  - (* the lock is busy *)
    exists [StopWorkerCall v].
    split; [done |]. split; [intros pid; unfold stops, employed; simpl; lia |].
    split; [done |]. split; [done |].
    intros rest' [= <-]. done.
Qed.

Lemma foldl_stop_worker_ids (ids : list pyval) s :
  let s' := foldl (λ s v, stop_worker v s) s ids in
  ∃ evs, trace s' = trace s ++ evs
    ∧ (∀ pid, (stops pid evs + employed pid s' = employed pid s)%nat)
    ∧ (∀ pid, PyInt pid ∉ ids → workers s' !! pid = workers s !! pid)
    ∧ (lock_outcomes s = [] →
       lock_outcomes s' = []
       ∧ ∀ pid, PyInt pid ∈ ids → workers s' !! pid = None)
    ∧ (∀ rest, lock_outcomes s = replicate (length ids) false ++ rest →
       workers s' = workers s ∧ lock_outcomes s' = rest
       ∧ ∀ pid, stops pid evs = 0%nat).
Proof.
  revert s. induction ids as [| v ids IH]; intros s; cbn [foldl].
  - exists []. rewrite app_nil_r. split; [done |].
    split; [intros pid; unfold stops, employed; simpl; lia |]. split; [done |].
    split; [intros Hl; split; [done | by intros pid ?%elem_of_nil] |].
    intros rest Hl. simpl in Hl. done.
  - destruct (stop_worker_step v s)
      as (evs1 & Htr1 & Hcons1 & Hother1 & Hfree1 & Hbusy1).
    destruct (IH (stop_worker v s))
      as (evs2 & Htr2 & Hcons2 & Hother2 & Hfree2 & Hbusy2).
    exists (evs1 ++ evs2).
    split; [rewrite Htr2, Htr1; by rewrite app_assoc |].
    split.
    { intros pid. rewrite stops_app.
      pose proof (Hcons1 pid). pose proof (Hcons2 pid). lia. }
    split.
    { intros pid Hnin. rewrite Hother2, Hother1; [done | |].
      - intros ->. apply Hnin. left.
      - intros Hin. apply Hnin. by right. }
    split.
    { intros Hl. destruct (Hfree1 Hl) as [Hl1 Hgone1].
      destruct (Hfree2 Hl1) as [Hl2 Hgone2]. split; [done |].
      intros pid Hin.
      destruct (decide (PyInt pid ∈ ids)) as [Hin' | Hnin'];
        [by apply Hgone2 |].
      rewrite Hother2 by done. apply Hgone1.
      by apply elem_of_cons in Hin as [-> | ?]. }
    intros rest Hl. simpl in Hl.
    destruct (Hbusy1 _ Hl) as (Hw1 & Hl1 & Hst1).
    destruct (Hbusy2 _ Hl1) as (Hw2 & Hl2 & Hst2).
    split; [congruence |]. split; [done |].
    intros pid. rewrite stops_app, Hst1, Hst2. done.
Qed.

Lemma foldl_stop_worker_tags (l : list Z) s :
  foldl (λ s t, stop_worker (_metadata (heap s t)) s) s l
  = foldl (λ s v, stop_worker v s) s ((λ t, _metadata (heap s t)) <$> l).
Proof.
  revert s. induction l as [| t l IH]; intros s; [done |].
  rewrite fmap_cons. cbn [foldl]. rewrite IH.
  by destruct (stop_worker_fields (_metadata (heap s t)) s) as (-> & _).
Qed.

Lemma foldl_stop_worker_ids_quiet (ids : list pyval) s :
  let s' := foldl (λ s v, stop_worker v s) s ids in
  heap s' = heap s ∧ tasks s' = tasks s
  ∧ ∀ t r, SetResults t r ∉ new_events s s'.
Proof.
  revert s. induction ids as [| v ids IH]; intros s; cbn [foldl].
  - repeat split. unfold new_events. rewrite drop_all.
    by intros t r ?%elem_of_nil.
  - destruct (stop_worker_fields v s) as (Hh & Ht & evs & Htr & _ & Hno).
    destruct (IH (stop_worker v s)) as (Hh' & Ht' & Hno').
    split; [congruence |]. split; [congruence |].
    intros t r. unfold new_events in *.
    assert (Hsplit : ∃ evs', trace (foldl (λ s v, stop_worker v s)
                                      (stop_worker v s) ids)
                             = trace (stop_worker v s) ++ evs').
    { clear. generalize (stop_worker v s). intros s0.
      destruct (foldl_stop_worker_ids ids s0) as (evs' & Htr' & _).
      by exists evs'. }
    destruct Hsplit as [evs' Htr'].
    specialize (Hno' t r). rewrite Htr', drop_app_length in Hno'.
    rewrite Htr', Htr, <- app_assoc, drop_app_length.
    intros [H | H]%elem_of_app; [by apply (Hno t r) | done].
Qed.

Lemma foldl_task_done_stops (r : results) (l : list Z) s :
  ∃ evs, trace (foldl (λ s task, task_done (py_id task) r s) s l)
         = trace s ++ evs
    ∧ ∀ pid, stops pid evs = 0%nat.
Proof.
  revert s. induction l as [| t l IH]; intros s; cbn [foldl].
  - exists []. by rewrite app_nil_r.
  - destruct (IH (task_done (py_id t) r s)) as (evs & Htr & Hst).
    unfold task_done in Htr |- *.
    destruct (tasks s !! py_id t) as [t0 |]; simpl in *.
    + exists ([SetResults t0 r; QueueTaskDone] ++ evs).
      split; [rewrite Htr; by rewrite <- !app_assoc |].
      intros pid. rewrite stops_app, Hst. done.
    + by exists evs.
Qed.



(** X10: [PoolManager.stop]: a worker leaves the registry exactly when it is
    stopped, and none is stopped twice; no task is resolved or unregistered
    by it; and with the channel lock free at every attempt every registered
    worker is stopped and the registry is left empty. *)
Theorem stop_stops_every_worker (s : pool) :
  let s' := stop s in
  (∀ pid, (stops pid (new_events s s') + employed pid s' = employed pid s)%nat)
  ∧ tasks s' = tasks s
  ∧ (∀ task r, SetResults task r ∉ new_events s s')
  ∧ (lock_outcomes s = [] →
     workers s' = ∅ ∧ ∀ pid, stops pid (new_events s s') = employed pid s).
Proof.
  intros s'.
  assert (Hs' : s' = foldl (λ s v, stop_worker v s) s
                       (PyInt <$> (map_to_list (workers s)).*1)).
  { unfold s', stop, stop_workers. symmetry.
    apply (foldl_fmap (λ s v, stop_worker v s)). }
  destruct (foldl_stop_worker_ids (PyInt <$> (map_to_list (workers s)).*1) s)
    as (evs & Htr & Hcons & Hother & Hfree & _).
  destruct (foldl_stop_worker_ids_quiet
              (PyInt <$> (map_to_list (workers s)).*1) s) as (_ & Ht & Hno).
  rewrite <- Hs' in Htr, Hcons, Hother, Hfree, Ht, Hno.
  rewrite <- (new_events_app _ _ _ Htr) in Hcons.
  split; [done |]. split; [done |]. split; [done |].
  intros Hl.
  assert (Hempty : workers s' = ∅).
  { apply map_empty. intros pid.
    destruct (workers s !! pid) as [w |] eqn:Hw.
    - apply (Hfree Hl). apply list_elem_of_fmap. exists pid. split; [done |].
      apply list_elem_of_fmap. exists (pid, w). split; [done |].
      by apply elem_of_map_to_list.
    - rewrite Hother; [done |].
      intros (pid' & [= <-] & Hin)%list_elem_of_fmap.
      apply list_elem_of_fmap in Hin as ([k w] & -> & Hin).
      apply elem_of_map_to_list in Hin. simpl in Hw. congruence. }
  split; [done |]. intros pid. specialize (Hcons pid).
  unfold employed in Hcons at 1. rewrite Hempty, lookup_empty in Hcons.
  rewrite (bool_decide_eq_false_2 (is_Some None)) in Hcons
    by (intros [? ?]; done).
  lia.
Qed.

Lemma stop_stops_every_worker_witness :
  workers (stop crashed_pool) = ∅
  ∧ stops 102 (new_events crashed_pool (stop crashed_pool)) = 1%nat.
Proof.
  destruct (stop_stops_every_worker crashed_pool) as (_ & _ & _ & Hfree).
  destruct (Hfree eq_refl) as [Hempty Hst].
  split; [exact Hempty |]. rewrite Hst. reflexivity.
Defined.

(** X11: the workers of the tasks that [update_tasks] resolves.  A worker is
    stopped at most once and leaves the registry exactly when it is stopped;
    a worker whose pid is not the [_metadata] of a resolved task is left
    alone.  With the channel lock free the worker of every resolved task is
    gone from the registry afterwards; with the lock busy at every attempt
    the tasks are resolved all the same but no worker is stopped. *)
Theorem update_tasks_stops_workers (started : Task → bool) (clock : Z → Z)
    (s : pool) :
  registry_wf s →
  let s' := update_tasks started clock s in
  let resolved := (inspect_tasks started clock s).1
                  ++ (inspect_tasks started clock s).2 in
  (∀ pid, (stops pid (new_events s s') + employed pid s' = employed pid s)%nat)
  ∧ (∀ pid, (∀ task, task ∈ resolved → _metadata (heap s task) ≠ PyInt pid) →
       workers s' !! pid = workers s !! pid)
  ∧ (lock_outcomes s = [] →
     ∀ task pid, task ∈ resolved → _metadata (heap s task) = PyInt pid →
       workers s' !! pid = None)
  ∧ (∀ rest, lock_outcomes s = replicate (length resolved) false ++ rest →
     workers s' = workers s).
Proof.
  intros Hwf s' resolved.
  set (l1 := (inspect_tasks started clock s).1) in *.
  set (l2 := (inspect_tasks started clock s).2) in *.
  set (r1 := Error (TimeoutError "Timeout")).
  set (r2 := Error (TaskCancelled "Cancelled")).
  set (s1 := foldl (λ s task, task_done (py_id task) r1 s) s l1).
  set (s2 := foldl (λ s task, task_done (py_id task) r2 s) s1 l2).
  set (ids := (λ t, _metadata (heap s2 t)) <$> resolved).
  assert (Hs' : s' = foldl (λ s v, stop_worker v s) s2 ids).
  { unfold ids. rewrite <- foldl_stop_worker_tags. reflexivity. }
  destruct (foldl_task_done r1 l1 s Hwf) as (Hwf1 & Hh1 & Hw1 & Hl1 & _).
  fold s1 in Hwf1, Hh1, Hw1, Hl1.
  destruct (foldl_task_done r2 l2 s1 Hwf1) as (_ & Hh2 & Hw2 & Hl2 & _).
  fold s2 in Hh2, Hw2, Hl2.
  destruct (foldl_task_done_stops r1 l1 s) as (evs1 & Htr1 & Hst1).
  fold s1 in Htr1.
  destruct (foldl_task_done_stops r2 l2 s1) as (evs2 & Htr2 & Hst2).
  fold s2 in Htr2.
  destruct (foldl_stop_worker_ids ids s2)
    as (evs3 & Htr3 & Hcons & Hother & Hfree & Hbusy).
  rewrite <- Hs' in Htr3, Hcons, Hother, Hfree, Hbusy.
  assert (Hevs : new_events s s' = evs1 ++ evs2 ++ evs3).
  { apply new_events_app. rewrite Htr3, Htr2, Htr1. by rewrite <- !app_assoc. }
  assert (Hheap : heap s2 = heap s) by congruence.
  assert (Hworkers : workers s2 = workers s) by congruence.
  assert (Hlock : lock_outcomes s2 = lock_outcomes s) by congruence.
  assert (Hids : ∀ pid, PyInt pid ∈ ids
                   ↔ ∃ task, task ∈ resolved
                             ∧ _metadata (heap s task) = PyInt pid).
  { intros pid. unfold ids. rewrite list_elem_of_fmap, Hheap. naive_solver. }
  assert (Hemp : ∀ pid, employed pid s2 = employed pid s).
  { intros pid. unfold employed. by rewrite Hworkers. }
  split; [| split; [| split]].
  - intros pid. rewrite Hevs, !stops_app, Hst1, Hst2. simpl.
    rewrite <- Hemp. apply Hcons.
  - intros pid Hnone. rewrite <- Hworkers. apply Hother.
    rewrite Hids. intros (task & Hin & Htag). by apply (Hnone task).
  - intros Hl task pid Hin Htag. apply Hfree; [congruence |].
    apply Hids. by exists task.
  - intros rest Hl. rewrite <- Hworkers.
    apply (Hbusy rest). unfold ids. rewrite length_fmap. congruence.
Qed.

(** Task 7 is overdue and worker 100 is registered: after the tick the
    worker is gone. *)
Lemma update_tasks_stops_workers_witness :
  workers (update_tasks started_by_timestamp (λ _, 10) overdue_pool) !! 100
  = None.
Proof.
  refine (proj1 (proj2 (proj2 (update_tasks_stops_workers started_by_timestamp
                                 (λ _, 10) overdue_pool crashed_pool_wf)))
            eq_refl 7 100 _ eq_refl).
  vm_compute. left.
Defined.

(** ** Inspecting workers twice *)

Lemma inspect_workers_all_alive s :
  (∀ pid w, workers s !! pid = Some w → is_alive w = true) →
  inspect_workers s = ([], s).
Proof.
  intros Halive. unfold inspect_workers. cbv zeta.
  rewrite (filter_all_false (λ w : Z * Worker, negb (is_alive w.2))
             (map_to_list (workers s))).
  - done.
  - intros [pid w] Hin%elem_of_map_to_list Hdead. simpl in Hdead.
    rewrite (Halive _ _ Hin) in Hdead. done.
Qed.

(** X12: [inspect_workers] keeps exactly the workers that are alive, calls nothing
    and touches no task; a dead worker is reported by one inspection only:
    the next one reports nobody and changes nothing. *)
Theorem inspect_workers_reports_once (s : pool) :
  let s' := (inspect_workers s).2 in
  (∀ pid w, workers s' !! pid = Some w
     ↔ workers s !! pid = Some w ∧ is_alive w = true)
  ∧ tasks s' = tasks s ∧ trace s' = trace s
  ∧ inspect_workers s' = ([], s').
Proof.
  intros s'.
  destruct (inspect_workers_spec s) as (_ & Ht & Htr & _ & _ & _ & Hw & _).
  fold s' in Ht, Htr, Hw.
  assert (Hlook : ∀ pid w, workers s' !! pid = Some w
                    ↔ workers s !! pid = Some w ∧ is_alive w = true).
  { intros pid w. rewrite Hw. apply map_lookup_filter_Some. }
  split; [done |]. split; [done |]. split; [done |].
  apply inspect_workers_all_alive. intros pid w Hk.
  by apply Hlook in Hk as [_ ?].
Qed.

(** In the pool with the crashed worker only worker 102 is alive: it is the
    one that stays, and the second inspection reports nobody. *)
Lemma inspect_workers_reports_once_witness :
  workers (inspect_workers crashed_pool).2 !! 102
  = Some {| is_alive := true; exitcode := None |}
  ∧ (inspect_workers (inspect_workers crashed_pool).2).1 = [].
Proof.
  destruct (inspect_workers_reports_once crashed_pool)
    as (Hlook & _ & _ & Hagain).
  split.
  - apply Hlook. split; reflexivity.
  - by rewrite Hagain.
Defined.

(** ** What a status tick does to the other tasks and to the workers *)

Lemma iter_new_worker_lookup (n : nat) s k w :
  workers (Nat.iter n new_worker s) !! k = Some w →
  workers s !! k = Some w ∨ w = {| is_alive := true; exitcode := None |}.
Proof.
  induction n as [| n IH]; simpl; [by left |].
  rewrite lookup_insert. case_decide; [intros [= <-]; by right | done].
Qed.

Lemma update_workers_settled s :
  (∀ pid w, workers s !! pid = Some w → is_alive w = true) →
  workers_number s ≤ Z.of_nat (size (workers s)) →
  update_workers s = s.
Proof.
  intros Halive Hfull. unfold update_workers.
  rewrite (inspect_workers_all_alive s Halive). simpl.
  unfold create_workers.
  by replace (Z.to_nat (workers_number s - Z.of_nat (size (workers s))))
    with 0%nat by lia.
Qed.

(** X13: [update_workers] removes from the task registry exactly the tasks it
    resolves.  A task stays registered and unresolved unless its [_metadata]
    is the pid of a registered worker that is dead with an exit code other
    than [os.EX_OK]: so a task that no worker has acknowledged yet, and the
    task of a worker that is alive or exited with [os.EX_OK], are never
    resolved by it. *)
Theorem update_workers_spares (s : pool) :
  registry_wf s →
  let s' := update_workers s in
  (∀ task, tasks s' !! py_id task = Some task
     ↔ tasks s !! py_id task = Some task
       ∧ ∀ r, SetResults task r ∉ new_events s s')
  ∧ (∀ task, tasks s !! py_id task = Some task →
       (∀ pid w, _metadata (heap s task) = PyInt pid →
          workers s !! pid = Some w →
          is_alive w = true ∨ exitcode w = Some EX_OK) →
       tasks s' !! py_id task = Some task).
Proof.
  intros Hwf s'.
  assert (Hbal : ∀ task,
            (resolutions task (new_events s s') + registered task s'
             = registered task s)%nat).
  { intros task.
    destruct (grows_update_workers task s Hwf)
      as (_ & _ & _ & [evs Htr] & _ & Hup & Hlow).
    fold s' in Htr, Hup, Hlow. rewrite (new_events_app _ _ _ Htr).
    rewrite Htr, resolutions_app in Hup, Hlow. lia. }
  assert (Hiff : ∀ task, tasks s' !! py_id task = Some task
     ↔ tasks s !! py_id task = Some task
       ∧ ∀ r, SetResults task r ∉ new_events s s').
  { intros task. specialize (Hbal task). unfold registered in Hbal.
    split.
    - intros Hreg'. rewrite Hreg' in Hbal.
      rewrite (bool_decide_eq_true_2 (Some task = Some task)) in Hbal by done.
      case_bool_decide as Hreg; [| lia]. split; [done |].
      intros r Hin%resolutions_elem_of. lia.
    - intros [Hreg Hno]. rewrite Hreg in Hbal.
      rewrite (bool_decide_eq_true_2 (Some task = Some task)) in Hbal by done.
      rewrite (resolutions_none _ _ Hno) in Hbal.
      case_bool_decide; [done | lia]. }
  split; [exact Hiff |].
  intros task Hreg Hspared. apply Hiff. split; [done |].
  intros r Hin.
  (* the resolutions of [update_workers] come from the reported workers *)
  set (dead := (inspect_workers s).1).
  set (s1 := (inspect_workers s).2).
  destruct (inspect_workers_spec s)
    as (Hh1 & Ht1 & Htr1 & _ & _ & _ & _ & Hnd & Hdead).
  fold dead in Hnd, Hdead. fold s1 in Hh1, Ht1, Htr1.
  assert (Hwf1 : registry_wf s1) by (unfold registry_wf; by rewrite Ht1).
  destruct (foldl_expire dead s1 Hwf1 Hnd)
    as (_ & _ & _ & _ & _ & _ & evs2 & Htr2 & Honly & _).
  set (s2 := foldl expire s1 dead) in *.
  destruct (iter_new_worker
              (Z.to_nat (workers_number s2 - Z.of_nat (size (workers s2)))) s2)
    as (_ & _ & _ & _ & _ & Htr3 & _).
  change (Nat.iter _ new_worker s2) with s' in Htr3.
  assert (Hevs : new_events s s'
                 = evs2 ++ spawn_events s2 (spawned s2)
                     (Z.to_nat (workers_number s2
                                - Z.of_nat (size (workers s2))))).
  { apply new_events_app. rewrite Htr3, Htr2, Htr1. by rewrite <- app_assoc. }
  rewrite Hevs in Hin. apply elem_of_app in Hin as [Hin | Hin].
  - destruct (Honly _ _ Hin) as (pid & code & Hd & _ & _ & Htag).
    apply Hdead in Hd as (w & Hk & Hal & Hcode & _).
    rewrite Hh1 in Htag.
    destruct (Hspared pid w Htag Hk); congruence.
  - unfold spawn_events in Hin.
    by apply list_elem_of_fmap in Hin as (i & Heq & _).
Qed.

(** In the pool with the crashed worker, task 8 belongs to a worker that
    exited with [os.EX_OK]: it stays registered. *)
Lemma update_workers_spares_witness :
  tasks (update_workers crashed_pool) !! py_id 8 = Some 8.
Proof.
  refine (proj2 (update_workers_spares crashed_pool crashed_pool_wf)
            8 eq_refl _).
  intros pid w Htag Hw. injection Htag as <-.
  injection Hw as <-. right. reflexivity.
Defined.

Lemma foldl_expire_workers (l : list (Z * option Z)) s :
  workers (foldl expire s l) = workers s
  ∧ spawned (foldl expire s l) = spawned s
  ∧ spawn_pid (foldl expire s l) = spawn_pid s
  ∧ workers_number (foldl expire s l) = workers_number s.
Proof.
  revert s. induction l as [| [pid code] l IH]; intros s; [done |].
  cbn [foldl]. destruct (IH (expire s (pid, code))) as (-> & -> & -> & ->).
  unfold expire, task_done.
  destruct (worker_id_lookup pid s) as [t |]; [| done].
  by destruct (tasks s !! py_id t).
Qed.

(** X14: once [update_workers] has run, with the operating system handing out
    pids that are new and distinct, a second run finds no dead worker and a
    full registry: it resolves nothing, creates no process and changes
    nothing. *)
Theorem update_workers_twice (s : pool) :
  let remaining := filter (λ kw, is_alive kw.2 = true) (workers s) in
  (∀ i, remaining !! spawn_pid s (spawned s + i) = None) →
  (∀ i j, i ≠ j → spawn_pid s (spawned s + i) ≠ spawn_pid s (spawned s + j)) →
  update_workers (update_workers s) = update_workers s.
Proof.
  intros remaining Hfresh Hinj.
  set (dead := (inspect_workers s).1).
  set (s1 := (inspect_workers s).2).
  set (s2 := foldl expire s1 dead).
  set (n := Z.to_nat (workers_number s2 - Z.of_nat (size (workers s2)))).
  assert (Hs' : update_workers s = Nat.iter n new_worker s2) by reflexivity.
  destruct (inspect_workers_spec s)
    as (_ & _ & _ & Hsp1 & Hpid1 & Hn1 & Hw1 & _).
  fold s1 in Hsp1, Hpid1, Hn1, Hw1. fold remaining in Hw1.
  assert (Hfields : workers s2 = workers s1 ∧ spawned s2 = spawned s1
                    ∧ spawn_pid s2 = spawn_pid s1
                    ∧ workers_number s2 = workers_number s1).
  { apply foldl_expire_workers. }
  destruct Hfields as (Hw2 & Hsp2 & Hpid2 & Hn2).
  destruct (iter_new_worker n s2) as (_ & _ & _ & _ & Hn3 & _ & Hsize).
  destruct Hsize as [Hsz _].
  { intros i. rewrite Hw2, Hw1, Hpid2, Hpid1, Hsp2, Hsp1. apply Hfresh. }
  { intros i j Hij. rewrite Hpid2, Hpid1, Hsp2, Hsp1. by apply Hinj. }
  rewrite Hs'. apply update_workers_settled.
  - intros pid w [Hk | ->]%iter_new_worker_lookup; [| done].
    rewrite Hw2, Hw1 in Hk.
    by apply map_lookup_filter_Some in Hk as [_ ?].
  - rewrite Hn3, Hsz. unfold n. lia.
Qed.

Lemma update_workers_twice_witness :
  update_workers (update_workers crashed_pool) = update_workers crashed_pool.
Proof.
  apply update_workers_twice.
  - intros i. apply map_lookup_filter_None. left.
    destruct (decide (200 + Z.of_nat (3 + i) = 102)) as [Heq | Hne]; [lia |].
    simpl. rewrite !lookup_insert_ne by lia. apply lookup_empty.
  - intros i j Hij. simpl. lia.
Defined.

(** ** The life of a task at the pool *)

(** X15: a task that is scheduled, acknowledged and answered: one [NewTask] with
    the payload goes out, the results are set once and the queue is told
    once; the task object keeps the pid of its worker and the time of the
    acknowledgement; and the registry is back to what it was. *)
Theorem task_lifecycle (task worker now now' : Z) (r : results) (s : pool) :
  tasks s !! py_id task = None →
  let s1 := schedule task s in
  let s2 := process_message now (Acknowledgement worker (py_id task)) s1 in
  let s3 := process_message now' (Results (py_id task) r) s2 in
  new_events s s3
  = [ChannelSend (NewTask (py_id task) (_metadata (heap s task)));
     SetResults task r; QueueTaskDone]
  ∧ tasks s3 = tasks s ∧ workers s3 = workers s
  ∧ _metadata (heap s3 task) = PyInt worker
  ∧ _timestamp (heap s3 task) = now
  ∧ ∀ other, other ≠ task → heap s3 other = heap s other.
Proof.
  intros Hfree s1 s2 s3.
  assert (H2 : s2 = set_heap
            (<[task := {| timeout := timeout (heap s task);
                          cancelled := cancelled (heap s task);
                          _metadata := PyInt worker;
                          _timestamp := now |}]> (heap s)) s1).
  { unfold s2, s1. simpl. unfold task_start. simpl.
    by rewrite lookup_insert_eq. }
  assert (H3 : s3 = emit QueueTaskDone
                      (emit (SetResults task r)
                         (set_tasks (delete (py_id task) (tasks s2)) s2))).
  { unfold s3. simpl. apply task_done_present. rewrite H2. simpl.
    apply lookup_insert_eq. }
  rewrite H3, H2. simpl.
  split; [apply new_events_app; simpl; by rewrite <- !app_assoc |].
  split; [by apply delete_insert_id |]. split; [done |].
  rewrite fn_lookup_insert. split; [done |]. split; [done |].
  intros other Hne. by rewrite fn_lookup_insert_ne.
Qed.

Lemma task_lifecycle_witness :
  new_events empty_pool
    (process_message 9 (Results (py_id 7) (Value 2))
       (process_message 5 (Acknowledgement 100 (py_id 7))
          (schedule 7 empty_pool)))
  = [ChannelSend (NewTask 7 (PyPayload (Payload "add" [1; 1] [])));
     SetResults 7 (Value 2); QueueTaskDone].
Proof.
  refine (proj1 (task_lifecycle 7 100 5 9 (Value 2) empty_pool _)).
  reflexivity.
Defined.

(** X16: messages that come too late.  Once [update_tasks] has resolved a task as
    timed out or as cancelled, the results its worker sends afterwards are
    dropped, and so is an acknowledgement that was still on its way: neither
    changes the state of the pool. *)
Theorem late_messages_dropped (started : Task → bool) (clock : Z → Z)
    (s : pool) (task now worker : Z) (r : results) :
  registry_wf s →
  tasks s !! py_id task = Some task →
  has_timeout started (clock task) (heap s task) = true
  ∨ started (heap s task) && cancelled (heap s task) = true →
  let s' := update_tasks started clock s in
  process_message now (Results (py_id task) r) s' = s'
  ∧ process_message now (Acknowledgement worker (py_id task)) s' = s'.
Proof.
  intros Hwf Hreg Hwhy s'.
  set (l1 := (inspect_tasks started clock s).1).
  set (l2 := (inspect_tasks started clock s).2).
  set (r1 := Error (TimeoutError "Timeout")).
  set (r2 := Error (TaskCancelled "Cancelled")).
  set (s1 := foldl (λ s task, task_done (py_id task) r1 s) s l1).
  set (s2 := foldl (λ s task, task_done (py_id task) r2 s) s1 l2).
  assert (Hs' : s' = foldl (λ s t, stop_worker (_metadata (heap s t)) s) s2
                       (l1 ++ l2)) by reflexivity.
  destruct (foldl_task_done r1 l1 s Hwf) as (Hwf1 & _ & _ & _ & Ht1 & _).
  fold s1 in Hwf1, Ht1.
  destruct (foldl_task_done r2 l2 s1 Hwf1) as (_ & _ & _ & _ & Ht2 & _).
  fold s2 in Ht2.
  destruct (foldl_stop_worker (l1 ++ l2) s2) as (_ & Ht3 & _).
  rewrite <- Hs' in Ht3.
  assert (Hval : task ∈ tasks_values s) by (by apply elem_of_tasks_values_wf).
  assert (Hgone : tasks s' !! py_id task = None).
  { rewrite Ht3, Ht2, Ht1.
    destruct Hwhy as [Hto | Hab].
    - rewrite (bool_decide_eq_true_2 (py_id task ∈ l1))
        by (by apply elem_of_inspect_tasks_timeout).
      by destruct (bool_decide (py_id task ∈ l2)).
    - by rewrite (bool_decide_eq_true_2 (py_id task ∈ l2))
        by (by apply elem_of_inspect_tasks_cancelled). }
  split; simpl.
  - by apply task_done_absent.
  - unfold task_start. by rewrite Hgone.
Qed.

Lemma late_messages_dropped_witness :
  let s' := update_tasks started_by_timestamp (λ _, 10) overdue_pool in
  process_message 11 (Results (py_id 7) (Value 2)) s' = s'.
Proof.
  refine (proj1 (late_messages_dropped started_by_timestamp (λ _, 10)
                   overdue_pool 7 11 100 (Value 2) crashed_pool_wf
                   eq_refl _)).
  left. reflexivity.
Defined.

(** X17: [task_start] writes the worker pid and the time into the task object and
    nothing else: the task's [timeout] and [cancelled], the other objects,
    both registries and the trace are as before, and for an identity that is
    not registered nothing changes at all.  It does not look at what the
    task holds already: a second acknowledgement replaces the worker and the
    start time of the first. *)
Theorem task_start_overwrites (now now' task_id worker worker' : Z)
    (s : pool) :
  let s' := task_start now task_id worker s in
  let s'' := task_start now' task_id worker' s' in
  tasks s' = tasks s ∧ workers s' = workers s ∧ trace s' = trace s
  ∧ (tasks s !! task_id = None → s' = s)
  ∧ (∀ task, tasks s !! task_id = Some task →
       heap s' task = {| timeout := timeout (heap s task);
                         cancelled := cancelled (heap s task);
                         _metadata := PyInt worker; _timestamp := now |}
       ∧ heap s'' task = {| timeout := timeout (heap s task);
                            cancelled := cancelled (heap s task);
                            _metadata := PyInt worker';
                            _timestamp := now' |}
       ∧ ∀ other, other ≠ task →
           heap s' other = heap s other ∧ heap s'' other = heap s other).
Proof.
  intros s' s''. unfold s'', s', task_start.
  destruct (tasks s !! task_id) as [task |] eqn:Hk; simpl; rewrite ?Hk; simpl.
  - split; [done |]. split; [done |]. split; [done |]. split; [done |].
    intros t [= <-]. rewrite !fn_lookup_insert. simpl.
    split; [done |]. split; [done |].
    intros other Hne. by rewrite !fn_lookup_insert_ne by done.
  - split; [done |]. split; [done |]. split; [done |]. split; [done |].
    by intros t [=].
Qed.

Lemma task_start_overwrites_witness :
  let s := register 7 empty_pool in
  heap (task_start 9 7 101 (task_start 5 7 100 s)) 7
  = {| timeout := None; cancelled := false;
       _metadata := PyInt 101; _timestamp := 9 |}.
Proof.
  intros s.
  refine (proj1 (proj2 (proj2 (proj2 (proj2 (proj2
            (task_start_overwrites 5 9 7 100 101 s)))) 7 _))).
  reflexivity.
Defined.

(** ** A queue of live tasks *)

Lemma foldl_schedule_tasks (l : list Z) s k :
  tasks (foldl (λ s task, schedule task s) s l) !! k
  = if bool_decide (k ∈ l) then Some k else tasks s !! k.
Proof.
  revert s. induction l as [| t l IH]; intros s; cbn [foldl].
  - by rewrite bool_decide_eq_false_2 by (by intros ?%elem_of_nil).
  - rewrite IH. simpl. unfold py_id.
    destruct (bool_decide_reflect (k ∈ l)) as [Hin | Hnin].
    + by rewrite bool_decide_eq_true_2 by (by right).
    + destruct (decide (t = k)) as [-> | Hne].
      * rewrite lookup_insert_eq. by rewrite bool_decide_eq_true_2 by left.
      * rewrite lookup_insert_ne by done.
        rewrite bool_decide_eq_false_2; [done |].
        by intros [-> | ?]%elem_of_cons.
Qed.

(** X18: a pool that is not alive: the scheduler returns without taking anything
    from the queue and without acknowledging it.  A pool that is alive, with
    nothing but live tasks in the queue: every one of them is registered and
    dispatched, in queue order, the queue is never acknowledged, and the
    scheduler is left waiting on the empty queue. *)
Theorem task_scheduler_loop_waits (fuel : nat) (s : pool) (live : list Z) :
  (alive s = false → task_scheduler_loop (S fuel) s = (Finished, s))
  ∧ (alive s = true →
     task_queue s = Some <$> live →
     (∀ task, task ∈ live → cancelled (heap s task) = false) →
     (length live < fuel)%nat →
     let s' := (task_scheduler_loop fuel s).2 in
     (task_scheduler_loop fuel s).1 = Blocked
     ∧ new_events s s' = new_task_events s live
     ∧ task_queue s' = []
     ∧ ∀ k, tasks s' !! k
            = if bool_decide (k ∈ live) then Some k else tasks s !! k).
Proof.
  split.
  - intros Ha. simpl. unfold pool_get_next_task. by rewrite Ha.
  - intros Ha Hq Hlive Hfuel.
    assert (Hrun : task_scheduler_loop fuel s
              = (Blocked,
                 foldl (λ s task, schedule task s) (set_task_queue [] s) live)).
    { revert fuel s Ha Hq Hlive Hfuel.
      induction live as [| task live IH]; intros fuel s Ha Hq Hlive Hfuel;
        (destruct fuel as [| fuel]; [simpl in Hfuel; lia |]).
      - simpl. unfold pool_get_next_task. rewrite Ha, Hq. simpl.
        f_equal. destruct s. unfold set_task_queue. simpl in *. by rewrite Hq.
      - rewrite (task_scheduler_loop_live fuel task (Some <$> live));
          try done.
        2: { apply Hlive. left. }
        rewrite IH; try done.
        + intros t Ht. apply Hlive. by right.
        + simpl in Hfuel. lia. }
    rewrite Hrun. simpl.
    destruct (foldl_schedule_fields live (set_task_queue [] s))
      as (_ & _ & Hq' & Ht').
    split; [done |]. split; [by apply new_events_app |]. split; [done |].
    intros k. by rewrite foldl_schedule_tasks.
Qed.

Lemma task_scheduler_loop_waits_witness :
  let s := set_task_queue [Some 7; Some 8] empty_pool in
  (task_scheduler_loop 3 s).1 = Blocked
  ∧ tasks (task_scheduler_loop 3 s).2 !! 8 = Some 8.
Proof.
  intros s.
  destruct (proj2 (task_scheduler_loop_waits 3 s [7; 8]) eq_refl eq_refl)
    as (Hend & _ & _ & Hreg).
  - intros task _. reflexivity.
  - simpl. lia.
  - split; [exact Hend |]. rewrite (Hreg 8). reflexivity.
Defined.

(** ** Creating workers *)

Lemma iter_new_worker_keeps (n : nat) s pid w :
  (∀ i, workers s !! spawn_pid s (spawned s + i) = None) →
  workers s !! pid = Some w →
  workers (Nat.iter n new_worker s) !! pid = Some w.
Proof.
  intros Hfresh Hk. induction n as [| n IH]; simpl; [done |].
  destruct (iter_new_worker n s) as (_ & _ & Hsp & Hpid & _).
  rewrite lookup_insert_ne; [done |].
  rewrite Hpid, Hsp. intros Heq. rewrite <- Heq, Hfresh in Hk. done.
Qed.

(** X19: [create_workers], which is also [PoolManager.start]: it creates as many
    processes as the registry is short of the configured number, and none if
    the registry is full or the number is not positive; it touches no task.
    With the operating system handing out pids that are new and distinct,
    the registry then holds the configured number of workers (or what it had,
    if that was more), every worker it had is still there, and a second call
    creates nothing. *)
Theorem create_workers_tops_up (s : pool) :
  let s' := create_workers s in
  let missing := Z.to_nat (workers_number s - Z.of_nat (size (workers s))) in
  new_events s s' = spawn_events s (spawned s) missing
  ∧ tasks s' = tasks s
  ∧ (workers_number s ≤ Z.of_nat (size (workers s)) → s' = s)
  ∧ ((∀ i, workers s !! spawn_pid s (spawned s + i) = None) →
     (∀ i j, i ≠ j →
        spawn_pid s (spawned s + i) ≠ spawn_pid s (spawned s + j)) →
     Z.of_nat (size (workers s'))
     = Z.max (workers_number s) (Z.of_nat (size (workers s)))
     ∧ (∀ pid w, workers s !! pid = Some w → workers s' !! pid = Some w)
     ∧ create_workers s' = s').
Proof.
  intros s' missing.
  destruct (iter_new_worker missing s) as (_ & Ht & _ & _ & Hn & Htr & Hsize).
  change (Nat.iter missing new_worker s) with s' in Ht, Hn, Htr, Hsize.
  split; [by apply new_events_app |]. split; [done |]. split.
  - intros Hfull. unfold s', create_workers.
    by replace (Z.to_nat (workers_number s - Z.of_nat (size (workers s))))
      with 0%nat by lia.
  - intros Hfresh Hinj. destruct (Hsize Hfresh Hinj) as [Hsz _].
    split; [rewrite Hsz; unfold missing; lia |]. split.
    + intros pid w Hk. by apply iter_new_worker_keeps.
    + unfold create_workers at 1. rewrite Hn, Hsz.
      by replace (Z.to_nat (workers_number s
                            - Z.of_nat (size (workers s) + missing)))
        with 0%nat by (unfold missing; lia).
Qed.

(** From the empty registry, [start] creates the two workers of the
    configuration. *)
Lemma create_workers_tops_up_witness :
  Z.of_nat (size (workers (start empty_pool))) = 2.
Proof.
  refine (proj1 (proj2 (proj2 (proj2 (create_workers_tops_up empty_pool)))
                   _ _)).
  - intros i. apply lookup_empty.
  - intros i j Hij. simpl. lia.
Defined.

(** ** The transactions of a worker *)

Lemma fetch_task_busy w c :
  channel w = Busy :: c →
  fetch_task w
  = fetch_task {| pid := pid w; channel := c; sent := sent w |}.
Proof.
  intros Hc. unfold fetch_task at 1. rewrite Hc. simpl.
  unfold task_transaction at 1. rewrite Hc. reflexivity.
Qed.

(** X20: [fetch_task] retries for as long as the channel lock is busy: none of
    these attempts sends anything or surfaces as an error.  The first
    transaction that goes through gives the task and sends its one
    acknowledgement; an error of [recv] other than the timeout is raised as
    it is, with nothing sent; and while nothing arrives the worker waits. *)
Theorem fetch_task_retries (n : nat) (w : worker) (rest : list transaction) :
  (∀ id p, channel w = replicate n Busy ++ Receives id p :: rest →
     fetch_task w
     = (Ok (id, p),
        {| pid := pid w; channel := rest;
           sent := sent w ++ [Acknowledgement (pid w) id] |}))
  ∧ (∀ e, (∀ msg, e ≠ TimeoutError msg) →
     channel w = replicate n Busy ++ Fails e :: rest →
     fetch_task w
     = (Raise e, {| pid := pid w; channel := rest; sent := sent w |}))
  ∧ (channel w = replicate n Busy →
     fetch_task w
     = (Wait, {| pid := pid w; channel := []; sent := sent w |})).
Proof.
  revert w. induction n as [| n IH]; intros w; simpl.
  - split; [| split].
    + intros id p Hc. by apply fetch_task_receives.
    + intros e He Hc. unfold fetch_task. rewrite Hc. simpl.
      unfold task_transaction. rewrite Hc.
      destruct e; try done. by destruct (He msg).
    + intros Hc. rewrite (fetch_task_silent w Hc). destruct w. simpl in *.
      by rewrite Hc.
  - split; [| split].
    + intros id p Hc. rewrite (fetch_task_busy w _ Hc).
      by rewrite (proj1 (IH {| pid := pid w;
                               channel := replicate n Busy
                                          ++ Receives id p :: rest;
                               sent := sent w |}) id p eq_refl).
    + intros e He Hc. rewrite (fetch_task_busy w _ Hc).
      by rewrite (proj1 (proj2 (IH {| pid := pid w;
                                      channel := replicate n Busy
                                                 ++ Fails e :: rest;
                                      sent := sent w |})) e He eq_refl).
    + intros Hc. rewrite (fetch_task_busy w _ Hc).
      by rewrite (proj2 (proj2 (IH {| pid := pid w;
                                      channel := replicate n Busy;
                                      sent := sent w |})) eq_refl).
Qed.

Lemma fetch_task_retries_witness :
  fetch_task (sample_worker [Busy; Busy; Receives 7 (PyInt 1); Busy])
  = (Ok (7, PyInt 1),
     {| pid := 100; channel := [Busy]; sent := [Acknowledgement 100 7] |}).
Proof.
  exact (proj1 (fetch_task_retries 2
                  (sample_worker [Busy; Busy; Receives 7 (PyInt 1); Busy])
                  [Busy]) 7 (PyInt 1) eq_refl).
Defined.

(** ** What a worker sends *)

Lemma worker_loop_sent (execute : payload → executed) (out : payload → results)
    (tasks : list (Z * payload)) turns limit c w :
  channel w = delivering tasks →
  (∀ t, t ∈ tasks → execute t.2 = Gives (out t.2)) →
  (length tasks ≤ turns)%nat → 0 ≤ c →
  let res := worker_loop execute turns limit c w in
  let taken := if limit =? 0 then tasks
               else take (Z.to_nat (limit - c)) tasks in
  sent (loop_worker res)
  = sent w ++ List.flat_map (exchange (pid w) out) taken
  ∧ pid (loop_worker res) = pid w.
Proof.
  revert turns c w.
  induction tasks as [| [id p] tasks IH]; intros turns c w Hch Hex Hturns Hc.
  - assert (Hrun : loop_worker (worker_loop execute turns limit c w) = w).
    { destruct turns; simpl; unfold worker_get_next_task;
        destruct (limit =? 0), (c <? limit); try done;
        by rewrite (fetch_task_silent w Hch). }
    simpl. rewrite Hrun. rewrite take_nil.
    destruct (limit =? 0); simpl; by rewrite app_nil_r.
  - destruct turns as [| turns]; [simpl in Hturns; lia |].
    assert (Hout : execute p = Gives (out p)) by (apply (Hex (id, p)); left).
    set (w1 := {| pid := pid w; channel := delivering tasks;
                  sent := (sent w ++ [Acknowledgement (pid w) id])
                          ++ [Results id (out p)] |}).
    simpl. unfold worker_get_next_task.
    destruct (Z.eqb_spec limit 0) as [Hz | Hz].
    + rewrite (fetch_task_receives id (PyPayload p) (delivering tasks) w Hch).
      simpl. rewrite Hout.
      destruct (IH turns c w1) as (Hsent & Hpid);
        [done | intros t Ht; apply Hex; by right | simpl in Hturns; lia
        | done |].
      subst limit. simpl in Hsent, Hpid. fold w1.
      rewrite Hsent, Hpid. simpl. by rewrite <- !app_assoc.
    + destruct (Z.ltb_spec c limit) as [Hlt | Hge].
      * rewrite (fetch_task_receives id (PyPayload p) (delivering tasks) w Hch).
        simpl. rewrite Hout.
        destruct (IH turns (c + 1) w1) as (Hsent & Hpid);
          [done | intros t Ht; apply Hex; by right | simpl in Hturns; lia
          | lia |].
        simpl in Hsent. fold w1.
        rewrite Hsent, Hpid.
        replace (Z.to_nat (limit - c)) with (S (Z.to_nat (limit - (c + 1))))
          by lia.
        simpl. by rewrite <- !app_assoc.
      * simpl. replace (Z.to_nat (limit - c)) with 0%nat by lia.
        simpl. by rewrite app_nil_r.
Qed.

(** X21: what a worker sends while the channel delivers tasks that run to their
    end: for each task it takes, the acknowledgement and then the results,
    the tasks in the order of their delivery, and nothing else.  It takes
    all of them if the task limit is zero and the first [task_limit] of them
    otherwise. *)
Theorem worker_process_exchanges (execute : payload → executed)
    (run_initializer : string → list Z → bool) (out : payload → results)
    (params : parameters) (w : worker) (tasks : list (Z * payload)) :
  channel w = delivering tasks →
  (∀ t, t ∈ tasks → execute t.2 = Gives (out t.2)) →
  (∀ f, initializer params = Some f →
        run_initializer f (initargs params) = true) →
  let res := worker_process execute run_initializer params w in
  let taken := if task_limit params =? 0 then tasks
               else take (Z.to_nat (task_limit params)) tasks in
  sent res.2 = sent w ++ List.flat_map (exchange (pid w) out) taken.
Proof.
  intros Hch Hex Hinit res taken. unfold res.
  rewrite (worker_process_worker execute run_initializer params w Hinit).
  assert (Hlen : length (channel w) = length tasks).
  { rewrite Hch. unfold delivering. by rewrite length_fmap. }
  destruct (worker_loop_sent execute out tasks (length (channel w))
              (task_limit params) 0 w Hch Hex ltac:(lia) ltac:(lia))
    as [Hsent _].
  rewrite Z.sub_0_r in Hsent. exact Hsent.
Qed.

Lemma worker_process_exchanges_witness :
  sent (worker_process sample_execute sample_run_initializer
          (sample_parameters 2)
          (sample_worker (delivering sample_tasks))).2
  = [Acknowledgement 100 7; Results 7 (Value 2);
     Acknowledgement 100 8; Results 8 (Value 2)].
Proof.
  refine (worker_process_exchanges sample_execute sample_run_initializer
            (λ _, Value 2) (sample_parameters 2)
            (sample_worker (delivering sample_tasks)) sample_tasks
            eq_refl _ _).
  - intros t _. reflexivity.
  - intros f H. discriminate H.
Defined.

(** ** How a worker ends *)



(** X23: a worker whose initializer fails, and a worker with a negative task
    limit, exit with [os.EX_OK] without a single transaction on the channel:
    nothing is received and nothing is sent. *)
Theorem worker_process_takes_nothing (execute : payload → executed)
    (run_initializer : string → list Z → bool) (params : parameters)
    (w : worker) :
  (∃ f, initializer params = Some f
        ∧ run_initializer f (initargs params) = false)
  ∨ task_limit params < 0 →
  worker_process execute run_initializer params w = (OsExit EX_OK, w).
Proof.
  intros [(f & Hf & Hfail) | Hneg]; unfold worker_process.
  - by rewrite Hf, Hfail.
  - assert (Hloop : worker_loop execute (length (channel w))
                      (task_limit params) 0 w = Exhausted w).
    { destruct (length (channel w)); simpl; unfold worker_get_next_task;
        (destruct (Z.eqb_spec (task_limit params) 0); [lia |]);
        (destruct (Z.ltb_spec 0 (task_limit params)); [lia | done]). }
    rewrite Hloop.
    destruct (initializer params) as [f |];
      [destruct (run_initializer f (initargs params)) |]; simpl; try done;
      (destruct (deinitializer params); [destruct (negb _) |]; done).
Qed.

Lemma worker_process_takes_nothing_witness :
  worker_process sample_execute sample_run_initializer (sample_parameters (-1))
    (sample_worker (delivering sample_tasks))
  = (OsExit EX_OK, sample_worker (delivering sample_tasks)).
Proof.
  apply worker_process_takes_nothing. right. simpl. lia.
Defined.

(** A first transaction that raises an [EnvironmentError] makes the worker
    function return the [errno] of the error. *)
Lemma worker_process_channel_error_witness :
  (worker_process sample_execute sample_run_initializer (sample_parameters 0)
     (sample_worker [Fails (EnvironmentError (Some 32))])).1
  = Returns (Some 32).
Proof.
  refine (proj2 (worker_process_channel_error sample_execute
                   sample_run_initializer (sample_parameters 0)
                   (sample_worker [Fails (EnvironmentError (Some 32))]) []
                   (EnvironmentError (Some 32)) _ _ eq_refl)
            (Some 32) eq_refl).
  - intros f H. discriminate H.
  - simpl. lia.
Defined.

(** ** The keywords of the constructor *)

(** X24: the constructor accepts a call exactly when every keyword is one of its
    six parameters; it then passes six values on, and a keyword passed alone
    lands in the position of its parameter, the others keeping their
    defaults. *)
Theorem Pool_init_accepts (keywords : list (string * argument)) :
  ((∃ bound, Pool_init keywords = inr bound)
   ↔ ∀ name, name ∈ keywords.*1 →
       name ∈ ["workers"; "task_limit"; "queue"; "queueargs"; "initializer";
               "initargs"])
  ∧ (∀ bound, Pool_init keywords = inr bound → length bound = 6%nat)
  ∧ (∀ i name d v, Pool_signature !! i = Some (name, d) →
       Pool_init [(name, v)]
       = inr (<[i := v]> [ArgInt 1; ArgInt 0; ArgNone; ArgNone; ArgNone;
                          ArgTuple []])).
Proof.
  split; [| split].
  - split.
    + intros [bound Hb] name Hin.
      destruct (decide (name ∈ Pool_signature.*1)) as [Hok | Hbad]; [done |].
      by rewrite (Pool_init_unknown_keyword keywords name Hin Hbad) in Hb.
    + intros Hall. unfold Pool_init, bind.
      destruct (forallb _ keywords) eqn:Hf; [by eexists |].
      exfalso. apply not_true_iff_false in Hf. apply Hf.
      apply forallb_forall. intros k Hk. apply bool_decide_eq_true.
      apply Hall, list_elem_of_fmap. exists k. split; [done |].
      by apply list_elem_of_In.
  - intros bound. unfold Pool_init, bind.
    destruct (forallb _ keywords); [| done]. intros [= <-]. reflexivity.
  - intros i name d v Hi.
    do 6 (destruct i as [| i]; [injection Hi as <- <-; reflexivity |]).
    done.
Qed.

Lemma Pool_init_accepts_witness :
  Pool_init [("task_limit", ArgInt 5)]
  = inr [ArgInt 1; ArgInt 5; ArgNone; ArgNone; ArgNone; ArgTuple []].
Proof.
  exact (proj2 (proj2 (Pool_init_accepts [])) 1%nat "task_limit" (ArgInt 0)
           (ArgInt 5) eq_refl).
Defined.
